(** * Gruntled leadership assessment: scoring, sequencing, storage and flow

    A shallow embedding of [app.py].  Python dictionaries that are only
    looked up and updated by key are finite maps ([gmap]); the competency
    catalog, whose iteration order drives the question numbering, is an
    association list in source order.  Exceptions are explicit: a
    computation that can raise returns a [result]. *)

From Stdlib Require Import ZArith Lia Ascii String.
From stdpp Require Import base tactics option list strings pretty gmap fin_maps sorting.

(* ================================================================== *)
(** * Part I.  Definitions                                             *)
(* ================================================================== *)

(** ** Python exceptions *)

Inductive exn : Set :=
  | TypeError | KeyError | IndexError | AttributeError
  | FileNotFoundError | JSONDecodeError
  | FileExistsError | NotADirectoryError | UnicodeDecodeError
  | PermissionError | ValueError | OSError.

Inductive result (A : Type) : Type :=
  | Ok (a : A)
  | Raise (e : exn).
Arguments Ok {A} a.
Arguments Raise {A} e.

#[global] Instance result_ret : MRet result := λ A a, Ok a.
#[global] Instance result_bind : MBind result := λ A B k r,
  match r with
  | Ok a => k a
  | Raise e => Raise e
  end.

(** [d[k]] on a dictionary: [KeyError] when the key is missing. *)
Definition getitem {V} (d : gmap string V) (k : string) : result V :=
  match d !! k with
  | Some v => Ok v
  | None => Raise KeyError
  end.

(** ** Competency catalog ([dimensions], app.py 411-500) *)

Record dimension := {
  title : string;
  statements : list (string * string)
}.

Definition dimensions : list (string * dimension) := [
  ("purpose_vision",
   {| title := "Purpose & Vision";
      statements := [
        ("vision", "Creates and effectively communicates a compelling vision for the future");
        ("values", "Clearly defines and consistently reinforces organizational values through actions");
        ("strategic", "Considers long-term implications and broader context in decision making");
        ("meaningful", "Helps others understand how their work contributes to larger organizational goals");
        ("legacy", "Takes actions today that will have positive long-term impact on the organization");
        ("why", "Clearly communicates the 'why' behind decisions and direction") ] |});
  ("execution_impact",
   {| title := "Execution & Impact";
      statements := [
        ("prioritize", "Effectively prioritizes tasks and initiatives based on strategic importance");
        ("resources", "Allocates and manages resources efficiently to achieve desired outcomes");
        ("quality", "Consistently delivers high-quality results that meet or exceed expectations");
        ("expectations", "Establishes and maintains clear performance expectations and accountability");
        ("goals", "Sets specific, measurable, achievable, relevant, and time-bound goals");
        ("recognition", "Recognizes and appreciates others' contributions and achievements") ] |});
  ("trust_authenticity",
   {| title := "Trust & Authenticity";
      statements := [
        ("listening", "Practices active listening and demonstrates clear understanding of others' perspectives");
        ("sharing", "Shares information clearly and openly with others");
        ("conversations", "Engages in difficult conversations with candor and respect");
        ("safety", "Creates an environment where team members feel safe to speak up and take risks");
        ("followthrough", "Does what they say they will do by following through on commitments");
        ("attention", "Gives full, undivided attention during interactions with others") ] |});
  ("emotional_intelligence",
   {| title := "Emotional Intelligence";
      statements := [
        ("awareness", "Demonstrates awareness of own emotions and their impact on others");
        ("composure", "Maintains composure and effectiveness under pressure");
        ("recognition", "Recognizes and appropriately responds to others' emotions and needs");
        ("respect", "Consistently treats all people with dignity and respect");
        ("conflict", "Addresses and resolves conflicts constructively and professionally");
        ("feedback", "Seeks and acts on feedback about own performance") ] |});
  ("people_development",
   {| title := "People Development";
      statements := [
        ("learning", "Actively supports and encourages continuous learning and development");
        ("coaching", "Provides effective coaching and mentoring to develop others' capabilities");
        ("strengths", "Identifies and leverages individual and team member strengths");
        ("growth", "Helps team members identify and pursue career growth opportunities");
        ("boundaries", "Supports healthy work-life boundaries and personal well-being");
        ("motivation", "Understands and responds to what motivates different team members") ] |});
  ("team_leadership",
   {| title := "Team Leadership";
      statements := [
        ("collaboration", "Promotes effective collaboration and teamwork across the group");
        ("decisions", "Involves team members appropriately in decisions that affect their work");
        ("viewpoints", "Actively seeks and incorporates different viewpoints and ideas");
        ("environment", "Creates a positive team environment where people enjoy their work");
        ("unity", "Actively breaks down silos and promotes organizational unity");
        ("recognition", "Recognizes team and individual contributions meaningfully") ] |});
  ("change_management",
   {| title := "Change Management";
      statements := [
        ("strategy", "Develops clear change implementation strategies");
        ("pace", "Effectively manages the pace and sequence of change");
        ("resistance", "Identifies and constructively addresses resistance to change");
        ("execution", "Develops and executes well-structured plans for implementing change");
        ("sustainability", "Ensures changes are successfully embedded and sustained over time");
        ("assumptions", "Challenges personal assumptions and biases during change") ] |});
  ("strategic_influence",
   {| title := "Strategic Influence";
      statements := [
        ("boundaries", "Effectively influences decisions and actions across organizational boundaries");
        ("stakeholders", "Builds and maintains productive relationships with key stakeholders");
        ("community", "Actively engages in and promotes community service and social responsibility");
        ("innovation", "Promotes and supports innovative thinking and creative solutions");
        ("trends", "Anticipates future trends and positions the organization for success");
        ("networks", "Builds strong networks across the organization and community") ] |}) ].

Definition dimension_keys : list string := dimensions.*1.

(** [dimensions[k]] *)
Definition dimensions_get (k : string) : option dimension :=
  (list_to_map dimensions : gmap string dimension) !! k.

(** keys of [dimensions[k]['statements']], empty for a key outside the
    catalog *)
Definition statement_keys (k : string) : list string :=
  match dimensions_get k with
  | Some d => (statements d).*1
  | None => []
  end.

(** ** Scoring *)

(** [sum(d.values())]: the accumulator starts at 0 and each value is added
    to it. *)
Definition sum_values (d : gmap string Z) : Z :=
  map_fold (λ _ v acc, (acc + v)%Z) 0%Z d.

(** [calculate_dimension_score] (app.py 39-42) *)
Definition calculate_dimension_score
    (scores : gmap string (gmap string Z)) (dimension_key : string) : result Z :=
  if bool_decide (dimension_key ∉ dom scores) then Ok 0%Z
  else d ← getitem scores dimension_key; Ok (sum_values d).

(** The loop
    [for dimension_key, scores in X.items():
         dimension_scores[dimension_key] = sum(scores.values())]
    of the thank-you page (858-861), of [save_assessment_data] (387-389)
    and of the coach summary (121-123). *)
Definition dimension_scores_of (scores : gmap string (gmap string Z)) : gmap string Z :=
  sum_values <$> scores.

(** ** Interpretation bands *)

Inductive level : Set := high | medium_high | medium | medium_low | low.

#[global] Instance level_eq_dec : EqDecision level.
Proof. solve_decision. Defined.

(** The if-chain of [show_coach_summary] (182-191). *)
Definition coach_summary_level (score : Z) : level :=
  if (score >=? 51)%Z then high
  else if (score >=? 41)%Z then medium_high
  else if (score >=? 31)%Z then medium
  else if (score >=? 21)%Z then medium_low
  else low.

(** The if-chain of [generate_assessment_pdf] (240-249). *)
Definition pdf_level (score : Z) : level :=
  if (score >=? 51)%Z then high
  else if (score >=? 41)%Z then medium_high
  else if (score >=? 31)%Z then medium
  else if (score >=? 21)%Z then medium_low
  else low.

(** The ['range'] entries of [score_interpretations] (531-748); every one of
    the eight dimensions carries the same five pairs.  The narrative
    ['interpretation'] and ['development'] strings are display text and are
    not part of the model. *)
Definition band_ranges : list (level * (Z * Z)) :=
  [ (high, (51, 60)); (medium_high, (41, 50)); (medium, (31, 40));
    (medium_low, (21, 30)); (low, (0, 20)) ]%Z.

Definition score_interpretations : list (string * list (level * (Z * Z))) :=
  (λ k, (k, band_ranges)) <$> dimension_keys.

(** [score_interpretations[dimension_key][level]['range']] *)
Definition interpretation_range (dimension_key : string) (lv : level) : result (Z * Z) :=
  match list_find (λ e, e.1 = dimension_key) score_interpretations with
  | Some (_, (_, bands)) =>
      match list_find (λ e, e.1 = lv) bands with
      | Some (_, (_, r)) => Ok r
      | None => Raise KeyError
      end
  | None => Raise KeyError
  end.

(** ** Reference notions used to state the scoring properties *)

(** The rating recorded for one (dimension, statement) pair, if any. *)
Definition rating (scores : gmap string (gmap string Z)) (dk sk : string) : option Z :=
  scores !! dk ≫= (.!! sk).

(** Keys of a ScoreMap are drawn from the catalog. *)
Definition catalog_keyed (scores : gmap string (gmap string Z)) : Prop :=
  ∀ dk d, scores !! dk = Some d →
    dk ∈ dimension_keys ∧ ∀ sk, is_Some (d !! sk) → sk ∈ statement_keys dk.

(** The arithmetic sum of the ratings recorded for a dimension, written
    over the catalog's statements: a statement without a rating adds 0. *)
Definition recorded_sum (scores : gmap string (gmap string Z)) (dk : string) : Z :=
  foldr (λ sk acc, (default 0 (rating scores dk sk) + acc)%Z) 0%Z (statement_keys dk).

(** ** Timestamps ([datetime.now()]) *)

Record datetime := {
  year : nat; month : nat; day : nat;
  hour : nat; minute : nat; second : nat; microsecond : nat
}.

Definition digit (n : nat) : ascii := ascii_of_nat (48 + n mod 10).

(** [n] written with exactly [width] decimal digits, zero-padded on the
    left.  A field of a datetime fits its width (years 1000..9999, the
    other fields in their calendar ranges), which is where this agrees
    with the ['%Y'], ['%m'], ... directives. *)
Fixpoint zfill (width n : nat) : string :=
  match width with
  | 0 => ""
  | S w => zfill w (n / 10) +:+ String (digit n) ""
  end.

(** [t.strftime('%Y%m%d_%H%M%S')] *)
Definition strftime_compact (t : datetime) : string :=
  zfill 4 (year t) +:+ zfill 2 (month t) +:+ zfill 2 (day t) +:+ "_" +:+
  zfill 2 (hour t) +:+ zfill 2 (minute t) +:+ zfill 2 (second t).

(** [t.isoformat()]: the fraction is printed only when it is not zero. *)
Definition isoformat (t : datetime) : string :=
  zfill 4 (year t) +:+ "-" +:+ zfill 2 (month t) +:+ "-" +:+ zfill 2 (day t) +:+ "T" +:+
  zfill 2 (hour t) +:+ ":" +:+ zfill 2 (minute t) +:+ ":" +:+ zfill 2 (second t) +:+
  (if decide (microsecond t = 0) then "" else "." +:+ zfill 6 (microsecond t)).

(** ** Question sequencer *)

Record question := {
  dimension_key : string;
  statement_key : string;
  statement : string;
  question_number : nat
}.

(** The two nested loops of [generate_randomized_questions] (505-512):
    every entry is appended with [len(all_questions) + 1] as its number. *)
Definition all_questions : list question :=
  foldl (λ acc e,
    foldl (λ acc' s,
        (acc' ++ [ {| dimension_key := e.1; statement_key := s.1;
                      statement := s.2; question_number := length acc' + 1 |} ])%list)
      acc (statements e.2))
    [] dimensions.

(** The random source: the raw draws still to be consumed. *)
Definition random_state := list nat.

(** [randbelow(n)]: some number below [n], read off the next draw. *)
Definition randbelow (n : nat) (r : random_state) : nat * random_state :=
  match r with
  | [] => (0, [])
  | x :: r' => (x mod n, r')
  end.

(** [x[i], x[j] = x[j], x[i]]: both reads happen first ([IndexError] when
    an index is out of range, which the caller below never passes), then
    [x[i]] and [x[j]] are written in that order. *)
Definition swap {A} (x : list A) (i j : nat) : list A :=
  match x !! j, x !! i with
  | Some a, Some b => <[j:=b]> (<[i:=a]> x)
  | _, _ => x
  end.

(** [random.shuffle(x)]:
    [for i in reversed(range(1, len(x))): j = randbelow(i + 1); swap]. *)
Fixpoint shuffle_from {A} (i : nat) (r : random_state) (x : list A)
    : list A * random_state :=
  match i with
  | 0 => (x, r)
  | S i' =>
      let '(j, r') := randbelow (i + 1) r in
      shuffle_from i' r' (swap x i j)
  end.

Definition shuffle {A} (r : random_state) (x : list A) : list A * random_state :=
  shuffle_from (length x - 1) r x.

(** ** Session state ([st.session_state], initialised at 361-376) *)

Record session_state := {
  page : string;
  scores : gmap string (gmap string Z);
  start_time : datetime;
  coachee_name : option string;
  coachee_email : option string;
  coachee_phone : option string;
  assessment_start : option string;
  current_question : nat;
  (** absent until the first generation *)
  randomized_questions : option (list question);
  (** index picked in each selection widget, by widget key; a widget
      nobody touched has no entry and shows its first option *)
  widget_index : gmap string nat;
  (** the [confirm_delete_<filename>] flags of the coach view *)
  confirm_delete : gmap string bool
}.

Definition initial_session_state (now : datetime) : session_state :=
  {| page := "welcome"; scores := ∅; start_time := now;
     coachee_name := None; coachee_email := None; coachee_phone := None;
     assessment_start := None; current_question := 0;
     randomized_questions := None; widget_index := ∅; confirm_delete := ∅ |}.

Definition set_randomized_questions (qs : list question) (s : session_state) :=
  {| page := page s; scores := scores s; start_time := start_time s;
     coachee_name := coachee_name s; coachee_email := coachee_email s;
     coachee_phone := coachee_phone s; assessment_start := assessment_start s;
     current_question := current_question s;
     randomized_questions := Some qs;
     widget_index := widget_index s; confirm_delete := confirm_delete s |}.

(** [generate_randomized_questions] (502-521) *)
Definition generate_randomized_questions (r : random_state) (s : session_state)
    : list question * session_state * random_state :=
  match randomized_questions s with
  | None =>
      let '(qs, r') := shuffle r all_questions in
      (qs, set_randomized_questions qs s, r')
  | Some qs => (qs, s, r)
  end.

(** [get_current_question] (524-528) *)
Definition get_current_question (r : random_state) (s : session_state)
    : option question * session_state * random_state :=
  let '(questions, s', r') := generate_randomized_questions r s in
  (if decide (current_question s' < length questions)
   then questions !! current_question s' else None, s', r').

(** All (dimension, statement) pairs of the catalog, in catalog order. *)
Definition catalog_pairs : list (string * string) :=
  e ← dimensions; (λ s, (e.1, s.1)) <$> statements e.2.

Definition question_pair (q : question) : string * string :=
  (dimension_key q, statement_key q).

(** ** JSON documents *)

(** The values the program writes and reads back: [None], integers,
    strings, lists and dictionaries.  A dictionary is its list of items;
    [wf_json] says its keys are distinct, as a Python [dict]'s are. *)
#[local] Unset Elimination Schemes.
Inductive json : Type :=
  | JNull
  | JInt (n : Z)
  | JStr (s : string)
  | JList (l : list json)
  | JDict (d : list (string * json)).
#[local] Set Elimination Schemes.

Fixpoint wf_json (j : json) : Prop :=
  match j with
  | JList l =>
      (fix all l := match l with [] => True | x :: l' => wf_json x ∧ all l' end) l
  | JDict d =>
      NoDup d.*1 ∧
      (fix all d := match d with [] => True | kv :: d' => wf_json kv.2 ∧ all d' end) d
  | _ => True
  end.

(** [k in d], [d.get(k)] and [d[k] = v] on the items of a dictionary; an
    assignment to a present key keeps its position, a new key goes last. *)
Fixpoint dict_get (k : string) (d : list (string * json)) : option json :=
  match d with
  | [] => None
  | (k', v) :: d' => if decide (k = k') then Some v else dict_get k d'
  end.

Fixpoint dict_set (k : string) (v : json) (d : list (string * json))
    : list (string * json) :=
  match d with
  | [] => [(k, v)]
  | (k', v') :: d' =>
      if decide (k = k') then (k, v) :: d' else (k', v') :: dict_set k v d'
  end.

(** [j[k]] *)
Definition json_getitem (j : json) (k : string) : result json :=
  match j with
  | JDict d => match dict_get k d with Some v => Ok v | None => Raise KeyError end
  | _ => Raise TypeError
  end.

(** [j[k] = v] with a string key: only a dictionary accepts it. *)
Definition json_setitem (j : json) (k : string) (v : json) : result json :=
  match j with
  | JDict d => Ok (JDict (dict_set k v d))
  | _ => Raise TypeError
  end.

(** [k in j], for the dictionaries it is asked of *)
Definition json_contains (j : json) (k : string) : bool :=
  match j with
  | JDict d => bool_decide (is_Some (dict_get k d))
  | _ => false
  end.

(** [j.items()] *)
Definition json_items (j : json) : result (list (string * json)) :=
  match j with
  | JDict d => Ok d
  | _ => Raise AttributeError
  end.

(** [sum(j.values())] *)
Fixpoint sum_json (vs : list (string * json)) (acc : Z) : result Z :=
  match vs with
  | [] => Ok acc
  | (_, JInt v) :: vs' => sum_json vs' (acc + v)%Z
  | _ :: _ => Raise TypeError
  end.

Definition json_sum_values (j : json) : result Z :=
  d ← json_items j; sum_json d 0%Z.

Definition json_of_option (o : option string) : json :=
  match o with Some s => JStr s | None => JNull end.

(** A dictionary of integers, and the ScoreMap, as documents.  The items
    come out in the map's own order; nothing below depends on it. *)
Definition ratings_to_json (d : gmap string Z) : json :=
  JDict ((λ kv, (kv.1, JInt kv.2)) <$> map_to_list d).

Definition scores_to_json (scores : gmap string (gmap string Z)) : json :=
  JDict ((λ kv, (kv.1, ratings_to_json kv.2)) <$> map_to_list scores).

(** [json.dump] and [json.load] over the text of a file; [json_load]
    gives [None] where [json.load] raises [JSONDecodeError]. *)
Class JsonCodec (text : Type) := {
  json_dump : json → text;
  json_load : text → option json
}.

(** Reading back what was dumped gives the same document. *)
Class JsonCodecLaws (text : Type) `{JsonCodec text} : Prop :=
  json_load_dump : ∀ j, wf_json j → json_load (json_dump j) = Some j.

(** What the file system adds to the codec.  [read_error c] is what
    [open(path, 'r')] and the read inside [json.load] raise on an entry
    that cannot be read as text ([PermissionError] from [open],
    [UnicodeDecodeError] for bytes that do not decode), [None] for readable
    text; an unreadable entry holds no document, and what [json.dump] wrote
    is readable.  [name_error name] is what [open] raises for a name that no
    directory can hold, whatever is in it ([ValueError] for an embedded
    NUL, [OSError] for a name that is too long). *)
Class FileSystem (text : Type) `{JsonCodec text} := {
  read_error : text → option exn;
  name_error : string → option exn;
  read_error_load : ∀ c e, read_error c = Some e → json_load c = None;
  read_error_dump : ∀ j, read_error (json_dump j) = None
}.

(** [s.endswith(suffix)] *)
Fixpoint endswith (s suffix : string) : bool :=
  if decide (s = suffix) then true
  else match s with
       | EmptyString => false
       | String _ s' => endswith s' suffix
       end.

(** An f-string field: [None] prints as ["None"]. *)
Definition fstr (o : option string) : string := default "None" o.

(** The first component of a relative path that has a separator: the part
    before the first ['/']; [None] for a name without separator. *)
Fixpoint path_head (name : string) : option string :=
  match name with
  | EmptyString => None
  | String c rest =>
      if decide (c = "/"%char) then Some EmptyString
      else String c <$> path_head rest
  end.

(** ** Assessment record store *)

Section store.
Context {text : Type} `{FileSystem text}.

(** The ['data'] directory: [None] while it does not exist, otherwise its
    files by name; it has no subdirectories, the program creates none.
    [os.listdir] enumerates the files in the map's order. *)
Definition directory : Type := option (gmap string text).

Definition listdir (files : gmap string text) : list (string * text) :=
  map_to_list files.

(** [if not os.path.exists('data'): os.makedirs('data')] *)
Definition ensure_data (data : directory) : gmap string text := default ∅ data.

(** [save_assessment_results] (12-23) *)
Definition save_assessment_results
    (scores : gmap string (gmap string Z)) (timestamp : datetime)
    (data : directory) : directory :=
  let files := ensure_data data in
  let results :=
    JDict [ ("scores", scores_to_json scores);
            ("timestamp", JStr (isoformat timestamp)) ] in
  let filename := "assessment_" +:+ strftime_compact timestamp +:+ ".json" in
  Some (<[filename := json_dump results]> files).

(** The dictionary [assessment_data] built at 391-399; [now] is the clock
    reading taken for ['completion_time']. *)
Definition assessment_data (s : session_state) (now : datetime) : json :=
  JDict [ ("coachee_name", json_of_option (coachee_name s));
          ("coachee_email", json_of_option (coachee_email s));
          ("coachee_phone", json_of_option (coachee_phone s));
          ("assessment_start", json_of_option (assessment_start s));
          ("completion_time", JStr (isoformat now));
          ("scores", scores_to_json (scores s));
          ("dimension_scores", ratings_to_json (dimension_scores_of (scores s))) ].

(** The file name built at 402; [now'] is the second clock reading. *)
Definition assessment_filename (s : session_state) (now' : datetime) : string :=
  "assessment_" +:+ fstr (coachee_email s) +:+ "_" +:+ strftime_compact now' +:+ ".json".

(** [with open(os.path.join('data', filename), 'w') as f: json.dump(..., f)]
    (405-406).  A name without separator is one entry of ['data']: the file
    is created, or replaced.  A name with a separator lies below
    ['data/head']: [open] raises [FileNotFoundError] when there is no such
    entry and [NotADirectoryError] when the entry is a file. *)
Definition open_write (filename : string) (content : text) (files : gmap string text)
    : result (gmap string text) :=
  match name_error filename with
  | Some e => Raise e
  | None =>
      match path_head filename with
      | Some head =>
          match files !! head with
          | Some _ => Raise NotADirectoryError
          | None => Raise FileNotFoundError
          end
      | None => Ok (<[filename := content]> files)
      end
  end.

(** [save_assessment_data] (381-406): the directory as the call leaves it,
    and whether the call returned or raised.  The email goes into the file
    name as it was typed. *)
Definition save_assessment_data
    (s : session_state) (now now' : datetime) (data : directory)
    : directory * result unit :=
  let files := ensure_data data in
  match open_write (assessment_filename s now') (json_dump (assessment_data s now)) files with
  | Ok files' => (Some files', Ok ())
  | Raise e => (Some files, Raise e)
  end.

(** *** Saves of several sessions at once

    [save_assessment_data] makes its system calls one after the other:
    [os.path.exists('data')] (383), [os.makedirs('data')] when the answer
    was no (384), and [open] with the write (405-406).  The calls of another
    session's save may run between them. *)
Inductive save_pc : Set :=
  | AtExists               (* about to call os.path.exists *)
  | AtMakedirs             (* the directory was absent: about to call os.makedirs *)
  | AtOpen                 (* about to open and write the file *)
  | Saved
  | Failed (e : exn).

Record saver := {
  saver_session : session_state;
  saver_now : datetime;
  saver_now' : datetime;
  saver_pc : save_pc
}.

Definition set_saver_pc (pc : save_pc) (p : saver) : saver :=
  {| saver_session := saver_session p; saver_now := saver_now p;
     saver_now' := saver_now' p; saver_pc := pc |}.

Definition start_save (s : session_state) (now now' : datetime) : saver :=
  {| saver_session := s; saver_now := now; saver_now' := now'; saver_pc := AtExists |}.

(** One system call of a save.  [os.makedirs] without [exist_ok] raises
    [FileExistsError] on a directory that exists. *)
Definition save_step (p : saver) (data : directory) : saver * directory :=
  match saver_pc p with
  | AtExists =>
      (set_saver_pc (match data with Some _ => AtOpen | None => AtMakedirs end) p,
       data)
  | AtMakedirs =>
      match data with
      | None => (set_saver_pc AtOpen p, Some ∅)
      | Some _ => (set_saver_pc (Failed FileExistsError) p, data)
      end
  | AtOpen =>
      match data with
      | Some files =>
          match open_write (assessment_filename (saver_session p) (saver_now' p))
                  (json_dump (assessment_data (saver_session p) (saver_now p))) files with
          | Ok files' => (set_saver_pc Saved p, Some files')
          | Raise e => (set_saver_pc (Failed e) p, data)
          end
      | None => (set_saver_pc (Failed FileNotFoundError) p, data)
      end
  | Saved | Failed _ => (p, data)
  end.

(** Two saves under a schedule: [true] lets the first make its next call,
    [false] the second. *)
Fixpoint run_savers (schedule : list bool) (p1 p2 : saver) (data : directory)
    : saver * saver * directory :=
  match schedule with
  | [] => (p1, p2, data)
  | true :: rest =>
      let '(p1', data') := save_step p1 data in run_savers rest p1' p2 data'
  | false :: rest =>
      let '(p2', data') := save_step p2 data in run_savers rest p1 p2' data'
  end.

(** The loop of [load_all_results] (28-31): [json.load] is not guarded. *)
Fixpoint load_all_loop (entries : list (string * text)) (results : list json)
    : result (list json) :=
  match entries with
  | [] => Ok results
  | (filename, content) :: rest =>
      if endswith filename ".json" then
        match json_load content with
        | Some j => load_all_loop rest (results ++ [j])%list
        | None => Raise JSONDecodeError
        end
      else load_all_loop rest results
  end.

(** [load_all_results] (25-32) *)
Definition load_all_results (data : directory) : result (list json) :=
  match data with
  | Some files => load_all_loop (listdir files) []
  | None => Ok []
  end.

(** The body of the [try] at 58-63, after [json.load]. *)
Definition coach_prepare (filename : string) (assessment : json) : result json :=
  a ← json_setitem assessment "filename" (JStr filename);
  if negb (json_contains a "assessment_start")
  then json_setitem a "assessment_start" (JStr "1970-01-01T00:00:00")
  else Ok a.

(** The loop of [show_coach_summary] (54-65).  [open] stands outside the
    [try], and the [except] names [json.JSONDecodeError] alone: a file
    that cannot be opened or decoded raises out of the loop, a file whose
    text does not parse is skipped, and so does any exception of the
    [try] body other than [JSONDecodeError] leave the loop. *)
Fixpoint coach_load_loop (entries : list (string * text)) (assessments : list json)
    : result (list json) :=
  match entries with
  | [] => Ok assessments
  | (filename, content) :: rest =>
      if endswith filename ".json" then
        match read_error content with
        | Some e => Raise e
        | None =>
            match json_load content with
            | Some j =>
                a ← coach_prepare filename j;
                coach_load_loop rest (assessments ++ [a])%list
            | None => coach_load_loop rest assessments
            end
        end
      else coach_load_loop rest assessments
  end.

(** The assessments [show_coach_summary] works on (47-69); with no
    directory it returns before reading anything. *)
Definition coach_load (data : directory) : result (list json) :=
  match data with
  | Some files => coach_load_loop (listdir files) []
  | None => Ok []
  end.

(** [os.remove(os.path.join('data', filename))] *)
Definition os_remove (filename : string) (files : gmap string text)
    : result (gmap string text) :=
  match files !! filename with
  | Some _ => Ok (delete filename files)
  | None => Raise FileNotFoundError
  end.

(** The "Yes, Delete" branch (92-95): remove, then the success message,
    then a rerun. *)
Definition confirm_yes_delete (filename : string) (files : gmap string text)
    : result (gmap string text * string) :=
  files' ← os_remove filename files;
  Ok (files', "Assessment deleted successfully!").

End store.

(** The recomputation at 121-123 of the coach summary, on a loaded
    assessment: the totals in the order of the stored items. *)
Fixpoint coach_totals_loop (items : list (string * json)) (dimension_scores : list (string * Z))
    : result (list (string * Z)) :=
  match items with
  | [] => Ok dimension_scores
  | (dk, sc) :: rest =>
      t ← json_sum_values sc;
      coach_totals_loop rest (dimension_scores ++ [(dk, t)])%list
  end.

Definition coach_dimension_scores (assessment : json) : result (list (string * Z)) :=
  sc ← json_getitem assessment "scores";
  items ← json_items sc;
  coach_totals_loop items [].

(** ** Respondent flow *)

Definition set_scores (sc : gmap string (gmap string Z)) (s : session_state) :=
  {| page := page s; scores := sc; start_time := start_time s;
     coachee_name := coachee_name s; coachee_email := coachee_email s;
     coachee_phone := coachee_phone s; assessment_start := assessment_start s;
     current_question := current_question s;
     randomized_questions := randomized_questions s;
     widget_index := widget_index s; confirm_delete := confirm_delete s |}.

Definition set_page (p : string) (s : session_state) :=
  {| page := p; scores := scores s; start_time := start_time s;
     coachee_name := coachee_name s; coachee_email := coachee_email s;
     coachee_phone := coachee_phone s; assessment_start := assessment_start s;
     current_question := current_question s;
     randomized_questions := randomized_questions s;
     widget_index := widget_index s; confirm_delete := confirm_delete s |}.

(** Truth value of a string: false exactly for the empty one. *)
Definition truthy (x : string) : bool := bool_decide (x ≠ "").

(** What a run of the script tells the respondent to do next. *)
Inductive signal : Set :=
  | Rerun                      (* st.rerun() *)
  | ShowError (msg : string)   (* st.error(msg) *)
  | Idle.

(** The handler of the intake form (839-849); [now] is the clock reading
    taken when the form is accepted. *)
Definition coachee_info_form
    (submitted : bool) (name email phone : string) (now : datetime)
    (s : session_state) : session_state * signal :=
  if submitted then
    if truthy name && truthy email then
      ({| page := "assessment"; scores := scores s; start_time := start_time s;
          coachee_name := Some name; coachee_email := Some email;
          coachee_phone := Some phone;
          assessment_start := Some (isoformat now);
          current_question := current_question s;
          randomized_questions := randomized_questions s;
          widget_index := widget_index s; confirm_delete := confirm_delete s |},
       Rerun)
    else (s, ShowError "Please fill in all required fields marked with *")
  else (s, Idle).

(** The [options] dictionary of the selection widget (783-794). *)
Definition options : list (Z * string) :=
  [ (1, "Does not yet demonstrate this behavior");
    (2, "Very rarely demonstrates this behavior");
    (3, "Rarely demonstrates this behavior");
    (4, "Occasionally demonstrates this behavior");
    (5, "Inconsistently demonstrates this behavior");
    (6, "Sometimes demonstrates this behavior");
    (7, "Often demonstrates this behavior");
    (8, "Frequently demonstrates this behavior");
    (9, "Consistently exemplifies this behavior");
    (10, "Consistently exemplifies this behavior and teaches others") ]%Z.

(** [sorted(options.keys())] *)
Definition sorted_option_keys : list Z := merge_sort Z.le options.*1.

(** [st.selectbox(..., opts, key=k)]: the option at the index held for the
    widget, the first option while the widget has none; [None] when there
    is no such option. *)
Definition selectbox (opts : list Z) (idx : option nat) : option Z :=
  opts !! default 0 idx.

(** [f"q_{q['question_number']}"] *)
Definition widget_key (q : question) : string :=
  "q_" +:+ pretty (question_number q).

(** "Store the response" (805-808). *)
Definition store_response (q : question) (selected : option Z)
    (sc : gmap string (gmap string Z)) : gmap string (gmap string Z) :=
  match selected with
  | Some v =>
      if bool_decide (v ≠ 0%Z) then
        let sc1 :=
          if bool_decide (dimension_key q ∉ dom sc)
          then <[dimension_key q := ∅]> sc else sc in
        alter (<[statement_key q := v]>) (dimension_key q) sc1
      else sc
  | None => sc
  end.

(** The question loop of [show_wizard_page] (775-808). *)
Definition render_questions (widgets : gmap string nat) (questions : list question)
    (sc : gmap string (gmap string Z)) : gmap string (gmap string Z) :=
  foldl (λ acc q,
           store_response q (selectbox sorted_option_keys (widgets !! widget_key q)) acc)
        sc questions.

(** The sequence [show_wizard_page] works on (756-772): generated and
    stored on the first rendering, read from the session afterwards. *)
Definition wizard_questions (r : random_state) (s : session_state)
    : list question * session_state * random_state :=
  match randomized_questions s with
  | None =>
      let '(questions, r') := shuffle r all_questions in
      (questions, set_randomized_questions questions s, r')
  | Some questions => (questions, s, r)
  end.

(** [is_coach] (35-36) *)
Definition is_coach (query_params : gmap string string) : bool :=
  bool_decide ("coach" ∈ dom query_params) &&
  bool_decide (query_params !! "coach" = Some "gruntled_coach_access").

(** A function definition: its parameter names and what its body does. *)
Record pyfunction (A : Type) := {
  parameters : list string;
  body : A
}.
Arguments parameters {A} _.
Arguments body {A} _.

(** A call with positional arguments only, of a function without defaults:
    [TypeError] unless there is one argument per parameter. *)
Definition py_call {A} (f : pyfunction (result A)) (args : list string) : result A :=
  if decide (length args = length (parameters f)) then body f else Raise TypeError.

(** What one run of the script was given. *)
Record run_input := {
  query_params : gmap string string;
  rng : random_state;
  form_submitted : bool;
  form_name : string;
  form_email : string;
  form_phone : string;
  complete_clicked : bool;
  now_intake : datetime;
  now_completion : datetime;
  now_filename : datetime
}.

Inductive view : Set := CoachView | WelcomeView | WizardView | ThankYouView | NoView.

Section flow.
Context {text : Type} `{FileSystem text}.

(** [show_wizard_page] (752-816).  [complete] says whether "Complete
    Assessment" was pressed in this run; [now], [now'] are the two clock
    readings of [save_assessment_data].  The session and the directory are
    given as the call leaves them, also when it raises: the answers are
    stored before the save is tried, the page is set only after it. *)
Definition show_wizard_page
    (r : random_state) (complete : bool) (now now' : datetime)
    (s : session_state) (data : @directory text)
    : session_state * @directory text * result signal :=
  let '(questions, s1, _) := wizard_questions r s in
  let s2 := set_scores (render_questions (widget_index s1) questions (scores s1)) s1 in
  if complete then
    match save_assessment_data s2 now now' data with
    | (data', Ok _) => (set_page "thank_you" s2, data', Ok Rerun)
    | (data', Raise e) => (s2, data', Raise e)
    end
  else (s2, data, Ok Idle).

(** The thank-you page (854-936), as far as it touches the scores: the
    totals, the chart labels ([dimensions[key]['title']], then
    [categories[0]]) and the detailed breakdown, which reads every catalog
    pair from the ScoreMap. *)
Definition thank_you_page (s : session_state) : result (gmap string Z) :=
  let dimension_scores := dimension_scores_of (scores s) in
  categories ← mapM (λ key, match dimensions_get key with
                            | Some d => Ok (title d)
                            | None => Raise KeyError
                            end) (map_to_list dimension_scores).*1;
  _ ← match categories with [] => Raise IndexError | c :: _ => Ok c end;
  _ ← mapM (λ p : string * string,
              d ← getitem (scores s) p.1; getitem d p.2) catalog_pairs;
  Ok dimension_scores.

Definition outcome : Type := view * session_state * @directory text * signal.

(** [def show_wizard_page():] -- no parameters. *)
Definition show_wizard_page_def (inp : run_input) (s : session_state)
    (data : @directory text) : pyfunction (result outcome) :=
  {| parameters := [];
     body :=
       let '(s', data', r) :=
         show_wizard_page (rng inp) (complete_clicked inp)
           (now_completion inp) (now_filename inp) s data in
       sig ← r; Ok (WizardView, s', data', sig) |}.

(** Main routing (818-940).  What [show_coach_summary] renders is outside
    this model and is passed in as [coach_view]. *)
Definition main (coach_view : result outcome) (inp : run_input)
    (s : session_state) (data : @directory text) : result outcome :=
  if is_coach (query_params inp) then coach_view
  else if decide (page s = "welcome") then
    let '(s', sig) :=
      coachee_info_form (form_submitted inp) (form_name inp) (form_email inp)
        (form_phone inp) (now_intake inp) s in
    Ok (WelcomeView, s', data, sig)
  else if decide (page s = "assessment") then
    py_call (show_wizard_page_def inp s data) []
  else if decide (page s = "thank_you") then
    _ ← thank_you_page s; Ok (ThankYouView, s, data, Idle)
  else if decide (page s ∈ dimension_keys) then
    py_call (show_wizard_page_def inp s data) [page s]
  else Ok (NoView, s, data, Idle).

End flow.

(** ** Reference notions used to state the flow properties *)

(** Every selection held for a widget is one of its ten options. *)
Definition widgets_in_range (widgets : gmap string nat) : Prop :=
  ∀ k i, widgets !! k = Some i → i < 10.

(** Every catalog pair has a rating between 1 and 10, and nothing else is
    recorded. *)
Definition complete_scores (sc : gmap string (gmap string Z)) : Prop :=
  catalog_keyed sc ∧
  ∀ dk sk, (dk, sk) ∈ catalog_pairs → ∃ v, rating sc dk sk = Some v ∧ (1 ≤ v ≤ 10)%Z.

(** ** A store whose files hold documents *)

(** The plainest codec: the text of a file is the document it holds, or
    nothing when the file does not parse. *)
#[export] Instance document_codec : JsonCodec (option json) :=
  {| json_dump := Some; json_load := λ t, t |}.

(** Every such file can be read, and every name is accepted. *)
#[export] Instance document_files : FileSystem (option json).
Proof. by refine {| read_error := λ _, None; name_error := λ _, None |}. Defined.

(** A store with files of every kind: a document, text that does not
    parse, bytes that do not decode.  Names longer than 255 characters are
    refused. *)
Inductive stored : Type :=
  | Document (j : json)
  | Garbled
  | Undecodable.

#[export] Instance stored_codec : JsonCodec stored :=
  {| json_dump := Document;
     json_load := λ t, match t with Document j => Some j | _ => None end |}.

#[export] Instance stored_files : FileSystem stored.
Proof.
  refine {| read_error := λ t, match t with
                               | Undecodable => Some UnicodeDecodeError
                               | _ => None
                               end;
            name_error := λ name, if decide (255 < String.length name)
                                  then Some OSError else None |}.
  - by intros [] e.
  - done.
Defined.

(** ** Sample inputs *)

Definition sample_time : datetime :=
  {| year := 2024; month := 5; day := 17; hour := 9; minute := 30;
     second := 12; microsecond := 250 |}.

Definition sample_input : run_input :=
  {| query_params := ∅; rng := [3; 1; 4; 1; 5; 9; 2; 6; 5; 3; 5; 8];
     form_submitted := true;
     form_name := "Jane Doe"; form_email := "jane@example.com"; form_phone := "";
     complete_clicked := true;
     now_intake := sample_time; now_completion := sample_time;
     now_filename := sample_time |}.

(** ** Reference notions used to state the store properties *)

Section store_reference.
Context {text : Type} `{FileSystem text}.

(** The record units of a listing: the [.json] files that parse. *)
Definition valid_units (entries : list (string * text)) : list (string * json) :=
  omap (λ e, if endswith e.1 ".json" then (λ j, (e.1, j)) <$> json_load e.2 else None)
       entries.

(** Every [.json] file that parses holds a dictionary. *)
Definition units_are_records (files : gmap string text) : Prop :=
  ∀ name c j, files !! name = Some c → endswith name ".json" = true →
    json_load c = Some j → ∃ d, j = JDict d.

(** Every [.json] file parses. *)
Definition units_all_parse (files : gmap string text) : Prop :=
  ∀ name c, files !! name = Some c → endswith name ".json" = true →
    is_Some (json_load c).

(** Every [.json] file can be opened and read as text. *)
Definition units_readable (files : gmap string text) : Prop :=
  ∀ name c, files !! name = Some c → endswith name ".json" = true →
    read_error c = None.

(** A name under which [open_write] stores a file: the file system takes
    it and it has no path separator. *)
Definition storable (filename : string) : Prop :=
  name_error filename = None ∧ path_head filename = None.

End store_reference.

(** A record as the coach view holds it: the stored dictionary with
    ['filename'] set and ['assessment_start'] defaulted. *)
Definition coach_record (name : string) (d : list (string * json)) : json :=
  let d1 := dict_set "filename" (JStr name) d in
  JDict (match dict_get "assessment_start" d1 with
         | Some _ => d1
         | None => dict_set "assessment_start" (JStr "1970-01-01T00:00:00") d1
         end).

(** The coach view's records for a list of record units. *)
Definition coach_records (units : list (string * json)) : list json :=
  omap (λ u, match u.2 with
             | JDict d => Some (coach_record u.1 d)
             | _ => None
             end) units.

(** A session that has rendered the questionnaire page once, nothing
    touched: every rating is the default 1. *)
Definition sample_session : session_state :=
  (show_wizard_page (text := option json) (rng sample_input) false
     sample_time sample_time
     (coachee_info_form true "Jane Doe" "jane@example.com" "" sample_time
        (initial_session_state sample_time)).1
     None).1.1.

(** A directory with one saved assessment and one file that does not
    parse. *)
Definition sample_directory : gmap string (option json) :=
  <[ "assessment_half_written.json" := None ]>
    (ensure_data (save_assessment_data sample_session sample_time sample_time None).1).

(** The widgets of a respondent who picks 10 for every statement of
    "Purpose & Vision" and leaves all the others alone. *)
Definition sample_widgets : gmap string nat :=
  list_to_map
    ((λ q, (widget_key q, 9)) <$>
     filter (λ q, dimension_key q = "purpose_vision") all_questions).

(** What every reachable session satisfies. *)
Definition session_ok (s : session_state) : Prop :=
  catalog_keyed (scores s) ∧
  widgets_in_range (widget_index s) ∧
  (∀ qs, randomized_questions s = Some qs → qs ≡ₚ all_questions) ∧
  (page s = "thank_you" → complete_scores (scores s)).

(** ** Sessions a respondent can be in *)

Definition set_widget_index (w : gmap string nat) (s : session_state) :=
  {| page := page s; scores := scores s; start_time := start_time s;
     coachee_name := coachee_name s; coachee_email := coachee_email s;
     coachee_phone := coachee_phone s; assessment_start := assessment_start s;
     current_question := current_question s;
     randomized_questions := randomized_questions s;
     widget_index := w; confirm_delete := confirm_delete s |}.

Section sessions.
Context {text : Type} `{FileSystem text}.

(** A session starts from the initial state; between two runs of the
    script the respondent may change what the selection widgets hold, each
    to one of its options; a run of the respondent's flow takes the session
    to the state it ends in.  A run of the questionnaire page that raises
    in the save leaves the session as the page had made it by then. *)
Inductive reachable : session_state → Prop :=
  | reach_initial (now : datetime) :
      reachable (initial_session_state now)
  | reach_select (s : session_state) (w : gmap string nat) :
      reachable s → widgets_in_range w → reachable (set_widget_index w s)
  | reach_run (coach_view : result outcome) (inp : run_input)
      (s s' : session_state) (data data' : @directory text) (v : view) (sig : signal) :
      reachable s →
      is_coach (query_params inp) = false →
      main coach_view inp s data = Ok (v, s', data', sig) →
      reachable s'
  | reach_raised (inp : run_input) (s : session_state) (data : @directory text) :
      reachable s →
      is_coach (query_params inp) = false →
      page s = "assessment" →
      reachable (show_wizard_page (rng inp) (complete_clicked inp)
                   (now_completion inp) (now_filename inp) s data).1.1.

End sessions.

(** ** The coach view, record by record *)

Definition set_confirm_delete (c : gmap string bool) (s : session_state) :=
  {| page := page s; scores := scores s; start_time := start_time s;
     coachee_name := coachee_name s; coachee_email := coachee_email s;
     coachee_phone := coachee_phone s; assessment_start := assessment_start s;
     current_question := current_question s;
     randomized_questions := randomized_questions s;
     widget_index := widget_index s; confirm_delete := c |}.

(** The delete controls of one record (82-99).  [clicked] is the key of the
    button whose press started this run, if any: a button reads true only
    in that run.  The session flag is kept under the record's file name. *)
Definition delete_controls {text : Type}
    (clicked : option string) (filename : string)
    (s : session_state) (files : gmap string text)
    : result (session_state * gmap string text * signal) :=
  let s1 :=
    if decide (clicked = Some ("delete_" +:+ filename))
    then set_confirm_delete (<[filename := true]> (confirm_delete s)) s
    else s in
  if default false (confirm_delete s1 !! filename) then
    if decide (clicked = Some ("confirm_yes_" +:+ filename)) then
      out ← confirm_yes_delete filename files;
      Ok (s1, out.1, Rerun)
    else if decide (clicked = Some ("confirm_no_" +:+ filename)) then
      Ok (set_confirm_delete (<[filename := false]> (confirm_delete s1)) s1,
          files, Rerun)
    else Ok (s1, files, Idle)
  else Ok (s1, files, Idle).

(** [dimensions[key]['title']] *)
Definition dimension_title (key : string) : result string :=
  match dimensions_get key with
  | Some d => Ok (title d)
  | None => Raise KeyError
  end.

(** The chart series (126-129 and 876-881): labels and values, each closed
    by repeating its first entry. *)
Definition radar_series (dimension_scores : list (string * Z))
    : result (list string * list Z) :=
  categories ← mapM dimension_title dimension_scores.*1;
  let values := dimension_scores.*2 in
  c ← match categories with [] => Raise IndexError | c :: _ => Ok c end;
  v ← match values with [] => Raise IndexError | v :: _ => Ok v end;
  Ok ((categories ++ [c])%list, (values ++ [v])%list).

(** One dimension tab (172-204): the band of the total, the ['range'] of
    its interpretation, and the stored rating of every statement of the
    dimension, under the statement's text. *)
Definition coach_dimension_tab (assessment : json) (dimension_key : string) (score : Z)
    : result (level * (Z * Z) * list (string * json)) :=
  let lv := coach_summary_level score in
  r ← interpretation_range dimension_key lv;
  d ← match dimensions_get dimension_key with
      | Some d => Ok d
      | None => Raise KeyError
      end;
  detail ← mapM (λ st : string * string,
                   sc ← json_getitem assessment "scores";
                   ds ← json_getitem sc dimension_key;
                   v ← json_getitem ds st.1;
                   Ok (st.2, v)) (statements d);
  Ok (lv, r, detail).

(** What [show_coach_summary] computes for one loaded assessment (120-129,
    165-204): the totals, the chart series, then the tabs.  The date
    formatting and the drawing are not part of it. *)
Definition coach_analysis (assessment : json)
    : result (list (string * Z * (level * (Z * Z) * list (string * json)))) :=
  dimension_scores ← coach_dimension_scores assessment;
  _ ← radar_series dimension_scores;
  _ ← mapM dimension_title dimension_scores.*1;
  mapM (λ e : string * Z,
          tab ← coach_dimension_tab assessment e.1 e.2;
          Ok (e.1, e.2, tab)) dimension_scores.

(** The dimension sections of [generate_assessment_pdf] (235-257): title,
    total, band and the ['range'] of the interpretation printed. *)
Definition pdf_sections (dimension_scores : list (string * Z))
    : result (list (string * Z * level * (Z * Z))) :=
  mapM (λ e : string * Z,
          t ← dimension_title e.1;
          r ← interpretation_range e.1 (pdf_level e.2);
          Ok (t, e.2, pdf_level e.2, r)) dimension_scores.

(** ** Reference notions used to state further properties *)

(** A clock reading whose fields fit the widths they are printed with. *)
Definition printable (t : datetime) : Prop :=
  year t < 10 ^ 4 ∧ month t < 10 ^ 2 ∧ day t < 10 ^ 2 ∧
  hour t < 10 ^ 2 ∧ minute t < 10 ^ 2 ∧ second t < 10 ^ 2.

(** Two clock readings within the same second. *)
Definition same_second (t1 t2 : datetime) : Prop :=
  year t1 = year t2 ∧ month t1 = month t2 ∧ day t1 = day t2 ∧
  hour t1 = hour t2 ∧ minute t1 = minute t2 ∧ second t1 = second t2.

(* ================================================================== *)
(** * Part II.  Properties                                             *)
(* ================================================================== *)

(** ** Interpretation bands *)

Lemma coach_summary_level_high score : coach_summary_level score = high ↔ (51 ≤ score)%Z.
Proof. unfold coach_summary_level. repeat case_match; split; (discriminate || lia || done). Qed.

Lemma pdf_level_eq score : pdf_level score = coach_summary_level score.
Proof. reflexivity. Qed.

Lemma dimension_keys_eq :
  dimension_keys =
    [ "purpose_vision"; "execution_impact"; "trust_authenticity";
      "emotional_intelligence"; "people_development"; "team_leadership";
      "change_management"; "strategic_influence" ].
Proof. reflexivity. Qed.

Lemma interpretation_range_in dk lv :
  dk ∈ dimension_keys →
  ∃ r, interpretation_range dk lv = Ok r ∧ (lv, r) ∈ band_ranges.
Proof.
  rewrite dimension_keys_eq, !elem_of_cons, elem_of_nil.
  intros H; destruct_or!; try done; subst dk; destruct lv;
    eexists; (split; [vm_compute; reflexivity | set_solver]).
Qed.

Lemma interpretation_range_out dk lv :
  dk ∉ dimension_keys → interpretation_range dk lv = Raise KeyError.
Proof.
  intros Hn. unfold interpretation_range.
  destruct (list_find _ _) as [[i [k b]]|] eqn:E; [|done].
  apply list_find_Some in E as (Hl & Hk & _). simpl in Hk. subst k.
  exfalso. apply Hn. apply list_elem_of_lookup_2 in Hl.
  unfold score_interpretations in Hl.
  apply list_elem_of_fmap in Hl as (k & Heq & Hin). by inversion Heq; subst.
Qed.

(** The band chosen by the if-chain is the one whose ['range'] in
    [score_interpretations] contains the total, for totals in 0..60. *)
Lemma level_matches_range dk score lo hi :
  (0 ≤ score ≤ 60)%Z →
  interpretation_range dk (coach_summary_level score) = Ok (lo, hi) →
  (lo ≤ score ≤ hi)%Z.
Proof.
  intros Hs H. destruct (decide (dk ∈ dimension_keys)) as [Hin|Hout].
  - revert Hin H. rewrite dimension_keys_eq, !elem_of_cons, elem_of_nil.
    intros Hin; destruct_or!; try done; subst dk;
      unfold coach_summary_level; repeat case_match;
      intros Hr; vm_compute in Hr; injection Hr as <- <-; lia.
  - by rewrite interpretation_range_out in H.
Qed.

(** C1. For every dimension and every integer total the band is fixed by
    the inclusive thresholds: at least 51 is high, 41..50 medium_high,
    31..40 medium, 21..30 medium_low and at most 20 low; the coach summary
    and the PDF report agree, and the boundary totals 20, 21, 30, 31, 40,
    41, 50, 51 and 60 fall where the thresholds put them. *)
Theorem band_thresholds (dimension_key : string) (score : Z) :
  (coach_summary_level score = high ↔ (51 ≤ score)%Z) ∧
  (coach_summary_level score = medium_high ↔ (41 ≤ score ≤ 50)%Z) ∧
  (coach_summary_level score = medium ↔ (31 ≤ score ≤ 40)%Z) ∧
  (coach_summary_level score = medium_low ↔ (21 ≤ score ≤ 30)%Z) ∧
  (coach_summary_level score = low ↔ (score ≤ 20)%Z) ∧
  pdf_level score = coach_summary_level score ∧
  (dimension_key ∈ dimension_keys ↔
     ∃ r, interpretation_range dimension_key (coach_summary_level score) = Ok r) ∧
  coach_summary_level 20 = low ∧
  coach_summary_level 21 = medium_low ∧ coach_summary_level 30 = medium_low ∧
  coach_summary_level 31 = medium ∧ coach_summary_level 40 = medium ∧
  coach_summary_level 41 = medium_high ∧ coach_summary_level 50 = medium_high ∧
  coach_summary_level 51 = high ∧ coach_summary_level 60 = high.
Proof.
  split_and!; try reflexivity;
    try (unfold coach_summary_level; repeat case_match; split;
         (discriminate || lia || done)).
  split.
  - intros Hin.
    destruct (interpretation_range_in dimension_key (coach_summary_level score) Hin)
      as (r & H & _); eauto.
  - intros [r Hr]. destruct (decide (dimension_key ∈ dimension_keys)); [done|].
    by rewrite interpretation_range_out in Hr.
Qed.

(** ** Per-dimension totals *)

Lemma sum_values_empty : sum_values ∅ = 0%Z.
Proof. apply map_fold_empty. Qed.

Lemma sum_values_insert (d : gmap string Z) k v :
  d !! k = None → sum_values (<[k:=v]> d) = (sum_values d + v)%Z.
Proof.
  intros Hk. unfold sum_values.
  rewrite map_fold_insert_L; [done | intros; lia | done].
Qed.

Lemma sum_values_delete (d : gmap string Z) k v :
  d !! k = Some v → sum_values d = (sum_values (delete k d) + v)%Z.
Proof.
  intros Hk. rewrite <- (insert_delete_id d k v Hk) at 1.
  apply sum_values_insert, lookup_delete_eq.
Qed.

Lemma foldr_add_ext (f g : string → Z) (l : list string) :
  (∀ j, j ∈ l → f j = g j) →
  foldr (λ k acc, (f k + acc)%Z) 0%Z l = foldr (λ k acc, (g k + acc)%Z) 0%Z l.
Proof.
  induction l as [|k l IH]; intros H; simpl; [done|].
  rewrite H, IH; [done| |]; intros; try apply H; set_solver.
Qed.

(** Summing the values of a dictionary is summing, over any duplicate-free
    list that covers its keys, the value at each key (0 where absent). *)
Lemma sum_values_over_keys (l : list string) : ∀ d : gmap string Z,
  NoDup l → (∀ k, is_Some (d !! k) → k ∈ l) →
  sum_values d = foldr (λ k acc, (default 0 (d !! k) + acc)%Z) 0%Z l.
Proof.
  induction l as [|k l IH]; intros d Hnd Hcov; simpl.
  - assert (d = ∅) as ->; [|apply sum_values_empty].
    apply map_empty. intros i. destruct (d !! i) eqn:E; [|done].
    pose proof (Hcov i (mk_is_Some _ _ E)) as Hin. by apply not_elem_of_nil in Hin.
  - apply NoDup_cons in Hnd as [Hk Hnd].
    assert (Hrest : ∀ d' : gmap string Z,
      (∀ j, j ≠ k → d' !! j = d !! j) →
      foldr (λ k acc, (default 0 (d' !! k) + acc)%Z) 0%Z l =
      foldr (λ k acc, (default 0 (d !! k) + acc)%Z) 0%Z l).
    { intros d' Hd'.
      apply (foldr_add_ext (λ j, default 0%Z (d' !! j)) (λ j, default 0%Z (d !! j))).
      intros j Hj. rewrite Hd'; [done|]. intros ->. done. }
    destruct (d !! k) as [v|] eqn:E; simpl.
    + rewrite (sum_values_delete d k v E), (IH (delete k d) Hnd).
      * rewrite Hrest; [lia|]. intros j Hj. by rewrite lookup_delete_ne.
      * intros j [x Hx]. destruct (decide (j = k)) as [->|Hne].
        { by rewrite lookup_delete_eq in Hx. }
        rewrite lookup_delete_ne in Hx by done.
        pose proof (Hcov j (mk_is_Some _ _ Hx)) as Hin.
        apply elem_of_cons in Hin as [?|?]; done.
    + rewrite (IH d Hnd); [done|].
      intros j [x Hx]. pose proof (Hcov j (mk_is_Some _ _ Hx)) as Hin.
      apply elem_of_cons in Hin as [->|?]; [congruence|done].
Qed.

Lemma dimensions_get_elem k d : dimensions_get k = Some d → (k, d) ∈ dimensions.
Proof. unfold dimensions_get. apply elem_of_list_to_map_2. Qed.

Lemma catalog_statement_keys_NoDup :
  Forall (λ e : string * dimension, NoDup (statements e.2).*1) dimensions.
Proof.
  unfold dimensions.
  repeat (apply Forall_cons_2;
          [simpl; apply (bool_decide_unpack _); vm_compute; exact I|]).
  apply Forall_nil_2.
Qed.

Lemma statement_keys_NoDup dk : NoDup (statement_keys dk).
Proof.
  unfold statement_keys. destruct (dimensions_get dk) as [d|] eqn:E; [|constructor].
  apply dimensions_get_elem in E.
  by apply (proj1 (Forall_forall _ _) catalog_statement_keys_NoDup (dk, d)).
Qed.

Lemma calculate_dimension_score_eq (scores : gmap string (gmap string Z)) dk :
  calculate_dimension_score scores dk =
    Ok (match scores !! dk with Some d => sum_values d | None => 0%Z end).
Proof.
  unfold calculate_dimension_score, getitem. case_bool_decide as Hd.
  - apply not_elem_of_dom in Hd. by rewrite Hd.
  - apply elem_of_dom in Hd as [d Hd]. by rewrite Hd.
Qed.

Lemma foldr_add_zero (f : string → Z) (l : list string) :
  (∀ j, j ∈ l → f j = 0%Z) → foldr (λ k acc, (f k + acc)%Z) 0%Z l = 0%Z.
Proof.
  induction l as [|k l IH]; intros H; simpl; [done|].
  rewrite H, IH; [done| |]; intros; try apply H; set_solver.
Qed.

Lemma recorded_sum_sum_values (scores : gmap string (gmap string Z)) dk :
  catalog_keyed scores →
  recorded_sum scores dk =
    match scores !! dk with Some d => sum_values d | None => 0%Z end.
Proof.
  intros Hcat. unfold recorded_sum, rating.
  destruct (scores !! dk) as [d|] eqn:E; simpl.
  - symmetry. apply sum_values_over_keys; [apply statement_keys_NoDup|].
    by apply (Hcat dk d E).
  - by apply (foldr_add_zero (λ _, 0%Z)).
Qed.

Lemma calculate_recorded_sum (scores : gmap string (gmap string Z)) dk :
  catalog_keyed scores →
  calculate_dimension_score scores dk = Ok (recorded_sum scores dk).
Proof.
  intros Hcat.
  by rewrite calculate_dimension_score_eq, (recorded_sum_sum_values _ _ Hcat).
Qed.

(** C2. For a ScoreMap whose keys are drawn from the catalog, the total
    the scoring operation computes for a dimension is the arithmetic sum of
    the ratings recorded for it; the operation returns (it raises nothing),
    and a dimension with no recorded rating gets 0.  The totals built on
    the thank-you page and in the save (858-861, 387-389) are the same
    numbers: every dimension that has an entry in the ScoreMap, so every
    dimension with a recorded rating, has a total, that total is the sum
    of its ratings, and no other dimension has one. *)
Theorem dimension_total_is_sum
    (scores : gmap string (gmap string Z)) (dimension_key : string) :
  catalog_keyed scores →
  calculate_dimension_score scores dimension_key
    = Ok (recorded_sum scores dimension_key) ∧
  (∀ t, dimension_scores_of scores !! dimension_key = Some t →
        t = recorded_sum scores dimension_key) ∧
  (is_Some (scores !! dimension_key) →
   dimension_scores_of scores !! dimension_key
     = Some (recorded_sum scores dimension_key)) ∧
  (∀ sk v, rating scores dimension_key sk = Some v →
   dimension_scores_of scores !! dimension_key
     = Some (recorded_sum scores dimension_key)) ∧
  (scores !! dimension_key = None →
   dimension_scores_of scores !! dimension_key = None) ∧
  ((∀ sk, rating scores dimension_key sk = None) →
   calculate_dimension_score scores dimension_key = Ok 0%Z).
Proof.
  intros Hcat. rewrite calculate_dimension_score_eq.
  rewrite (recorded_sum_sum_values _ _ Hcat).
  unfold dimension_scores_of, rating. rewrite lookup_fmap.
  destruct (scores !! dimension_key) as [d|]; simpl.
  - split_and!; [done|congruence|done|done|done|].
    intros Hn. assert (d = ∅) as -> by (by apply map_empty).
    by rewrite sum_values_empty.
  - split_and!; [done|done|by intros [? ?]|done|done|done].
Qed.

Lemma dimension_total_is_sum_witness :
  let scores : gmap string (gmap string Z) :=
    {[ "purpose_vision" := {[ "vision" := 7%Z; "why" := 10%Z ]} ]} in
  catalog_keyed scores ∧
  calculate_dimension_score scores "purpose_vision" = Ok 17%Z ∧
  dimension_scores_of scores !! "purpose_vision" = Some 17%Z ∧
  calculate_dimension_score scores "team_leadership" = Ok 0%Z.
Proof.
  intros scores.
  assert (Hcat : catalog_keyed scores).
  { intros dk d Hd. unfold scores in Hd.
    apply lookup_singleton_Some in Hd as [<- <-]. split.
    - rewrite dimension_keys_eq. set_solver.
    - intros sk [r Hr]. change (statement_keys "purpose_vision") with
        ["vision"; "values"; "strategic"; "meaningful"; "legacy"; "why"].
      apply lookup_insert_Some in Hr as [[<- _]|[_ Hr]]; [set_solver|].
      apply lookup_singleton_Some in Hr as [<- _]. set_solver. }
  split; [exact Hcat|]. split_and!.
  - rewrite (proj1 (dimension_total_is_sum scores "purpose_vision" Hcat)).
    f_equal.
  - destruct (dimension_total_is_sum scores "purpose_vision" Hcat)
      as (_ & _ & Htotal & _).
    rewrite Htotal; [f_equal|]. unfold scores. by rewrite lookup_singleton_eq.
  - apply (dimension_total_is_sum scores "team_leadership" Hcat).
    intros sk. unfold rating, scores. by rewrite lookup_singleton_ne.
Defined.

(** ** Question sequence *)

Lemma insert_head_perm {A} (b a : A) : ∀ (t : list A) (j : nat),
  t !! j = Some a → a :: <[j:=b]> t ≡ₚ b :: t.
Proof.
  induction t as [|c t IH]; intros [|j] Hj; simplify_eq/=.
  - apply perm_swap.
  - rewrite perm_swap, (IH j Hj). apply perm_swap.
Qed.

Lemma swap_perm {A} : ∀ (x : list A) (i j : nat), swap x i j ≡ₚ x.
Proof.
  unfold swap. induction x as [|h t IH]; intros i j; [by destruct j, i|].
  destruct j as [|j], i as [|i]; simpl.
  - done.
  - destruct (t !! i) as [b|] eqn:Hi; [|done]. simpl.
    by apply insert_head_perm.
  - destruct (t !! j) as [a|] eqn:Hj; [|done]. simpl.
    by apply insert_head_perm.
  - specialize (IH i j).
    destruct (t !! j) as [a|], (t !! i) as [b|]; simpl; try done.
    by rewrite IH.
Qed.

Lemma shuffle_from_perm {A} : ∀ (i : nat) (r : random_state) (x : list A),
  (shuffle_from i r x).1 ≡ₚ x.
Proof.
  induction i as [|i IH]; intros r x; [done|].
  cbn [shuffle_from]. destruct (randbelow (S i + 1) r) as [j r'].
  by rewrite IH, swap_perm.
Qed.

Lemma shuffle_perm {A} (r : random_state) (x : list A) : (shuffle r x).1 ≡ₚ x.
Proof. apply shuffle_from_perm. Qed.

(** [randbelow(i + 1)] is at most [i], and with [i] inside the list both
    reads of the tuple assignment succeed: the swap never falls back. *)
Lemma randbelow_lt n r : 0 < n → (randbelow n r).1 < n.
Proof.
  intros Hn. destruct r as [|x r]; simpl; [done|].
  apply Nat.mod_upper_bound. lia.
Qed.

Lemma swap_in_range {A} (x : list A) (i j : nat) :
  i < length x → j < i + 1 →
  ∃ a b, x !! j = Some a ∧ x !! i = Some b ∧ swap x i j = <[j:=b]> (<[i:=a]> x).
Proof.
  intros Hi Hj. unfold swap.
  destruct (lookup_lt_is_Some_2 x i Hi) as [b Hb].
  destruct (lookup_lt_is_Some_2 x j ltac:(lia)) as [a Ha].
  exists a, b. by rewrite Ha, Hb.
Qed.

Lemma swap_length {A} (x : list A) (i j : nat) : length (swap x i j) = length x.
Proof. by rewrite swap_perm. Qed.

Lemma all_questions_pairs : question_pair <$> all_questions = catalog_pairs.
Proof. reflexivity. Qed.

Lemma all_questions_numbers :
  question_number <$> all_questions = seq 1 48.
Proof. reflexivity. Qed.

Lemma catalog_pairs_NoDup : NoDup catalog_pairs.
Proof. apply (bool_decide_unpack _). vm_compute. exact I. Qed.

Lemma catalog_pairs_length : length catalog_pairs = 48.
Proof. reflexivity. Qed.

Lemma generate_cached qs (s : session_state) r :
  randomized_questions s = Some qs →
  generate_randomized_questions r s = (qs, s, r).
Proof. intros H. unfold generate_randomized_questions. by rewrite H. Qed.

(** C3. Whatever the random source draws, the first call of a session
    returns 48 entries that are a permutation of the catalog's (dimension,
    statement) pairs, each exactly once; it stores the sequence in the
    session, and every later call returns that stored sequence and leaves
    the session and the random source untouched. *)
Theorem question_sequence_permutation (r : random_state) (s : session_state) :
  randomized_questions s = None →
  let '(qs, s', _) := generate_randomized_questions r s in
  length qs = 48 ∧
  qs ≡ₚ all_questions ∧
  question_pair <$> qs ≡ₚ catalog_pairs ∧
  NoDup (question_pair <$> qs) ∧
  randomized_questions s' = Some qs ∧
  ∀ r2, generate_randomized_questions r2 s' = (qs, s', r2).
Proof.
  intros Hnone. unfold generate_randomized_questions. rewrite Hnone.
  pose proof (shuffle_perm r all_questions) as Hperm.
  destruct (shuffle r all_questions) as [qs r'] eqn:E. simpl in Hperm.
  assert (Hpairs : question_pair <$> qs ≡ₚ catalog_pairs).
  { rewrite <- all_questions_pairs. by apply fmap_Permutation. }
  split_and!.
  - by rewrite Hperm.
  - done.
  - done.
  - rewrite Hpairs. apply catalog_pairs_NoDup.
  - done.
  - intros r2. done.
Qed.

Lemma question_sequence_permutation_witness :
  let s := initial_session_state
             {| year := 2024; month := 5; day := 17; hour := 9; minute := 30;
                second := 12; microsecond := 250 |} in
  let r := [3; 1; 4; 1; 5; 9; 2; 6; 5; 3; 5; 8; 9; 7; 9; 3; 2; 3; 8; 4; 6; 2; 6; 4] in
  randomized_questions s = None ∧
  length (generate_randomized_questions r s).1.1 = 48.
Proof.
  intros s r. split; [reflexivity|].
  pose proof (question_sequence_permutation r s eq_refl) as H.
  destruct (generate_randomized_questions r s) as [[qs s'] r'].
  exact (proj1 H).
Defined.

(** ** Intake and routing *)

Section flow_properties.
Context {text : Type} `{FileSystem text}.

Lemma truthy_true x : truthy x = true ↔ x ≠ "".
Proof. unfold truthy. by rewrite bool_decide_eq_true. Qed.

Lemma coachee_info_form_accept name email phone now s :
  name ≠ "" → email ≠ "" →
  coachee_info_form true name email phone now s =
    ({| page := "assessment"; scores := scores s; start_time := start_time s;
        coachee_name := Some name; coachee_email := Some email;
        coachee_phone := Some phone;
        assessment_start := Some (isoformat now);
        current_question := current_question s;
        randomized_questions := randomized_questions s;
        widget_index := widget_index s; confirm_delete := confirm_delete s |},
     Rerun).
Proof.
  intros Hn He. unfold coachee_info_form.
  by rewrite (proj2 (truthy_true name) Hn), (proj2 (truthy_true email) He).
Qed.

Lemma coachee_info_form_reject name email phone now s :
  name = "" ∨ email = "" →
  coachee_info_form true name email phone now s =
    (s, ShowError "Please fill in all required fields marked with *").
Proof.
  intros [-> | ->]; unfold coachee_info_form; [done|].
  by rewrite andb_comm.
Qed.

(** C8. On the welcome page a submitted intake form starts the
    assessment exactly when name and email are both non-empty, whatever the
    phone field holds: then name, email, phone and the start timestamp are
    recorded and the page becomes the questionnaire; otherwise the session
    state is returned unchanged and an error message is shown. *)
Theorem intake_transition
    (coach_view : result outcome) (inp : run_input)
    (s : session_state) (data : @directory text) :
  is_coach (query_params inp) = false →
  page s = "welcome" →
  form_submitted inp = true →
  ∃ s' sig,
    main coach_view inp s data = Ok (WelcomeView, s', data, sig) ∧
    (sig = Rerun ↔ form_name inp ≠ "" ∧ form_email inp ≠ "") ∧
    (form_name inp ≠ "" ∧ form_email inp ≠ "" →
       page s' = "assessment" ∧
       assessment_start s' = Some (isoformat (now_intake inp)) ∧
       coachee_name s' = Some (form_name inp) ∧
       coachee_email s' = Some (form_email inp) ∧
       coachee_phone s' = Some (form_phone inp) ∧
       scores s' = scores s) ∧
    (form_name inp = "" ∨ form_email inp = "" →
       s' = s ∧ sig = ShowError "Please fill in all required fields marked with *").
Proof.
  intros Hc Hp Hsub. unfold main. rewrite Hc, Hsub.
  destruct (decide (page s = "welcome")) as [_|]; [|done].
  destruct (decide (form_name inp = "")) as [Hn|Hn];
    [|destruct (decide (form_email inp = "")) as [He|He]].
  - rewrite coachee_info_form_reject by auto.
    eexists _, _. split; [done|]. split_and!.
    + split; [done|]. by intros [? _].
    + by intros [? _].
    + done.
  - rewrite coachee_info_form_reject by auto.
    eexists _, _. split; [done|]. split_and!.
    + split; [done|]. by intros [_ ?].
    + by intros [_ ?].
    + done.
  - rewrite coachee_info_form_accept by done.
    eexists _, _. split; [done|]. split_and!.
    + done.
    + done.
    + by intros [?|?].
Qed.

Lemma show_wizard_page_no_parameters inp s (data : @directory text) :
  parameters (show_wizard_page_def inp s data) = [].
Proof. reflexivity. Qed.

Lemma dimension_keys_not_pages p :
  p ∈ dimension_keys → p ≠ "welcome" ∧ p ≠ "assessment" ∧ p ≠ "thank_you".
Proof.
  rewrite dimension_keys_eq, !elem_of_cons, elem_of_nil.
  intros Hp; destruct_or!; try done; subst p; done.
Qed.

(** C9. When the page held in the session is a dimension identifier (and
    the request is not the coach's), the last routing branch calls
    [show_wizard_page] with one positional argument; the function takes
    none, so the call raises [TypeError] and nothing is rendered.  The call
    itself raises whatever the session holds. *)
Theorem dimension_page_raises
    (coach_view : result outcome) (inp : run_input)
    (s : session_state) (data : @directory text) :
  py_call (show_wizard_page_def inp s data) [page s] = Raise TypeError ∧
  (is_coach (query_params inp) = false → page s ∈ dimension_keys →
   main coach_view inp s data = Raise TypeError).
Proof.
  split; [done|]. intros Hc Hp. unfold main. rewrite Hc.
  destruct (dimension_keys_not_pages _ Hp) as (H1 & H2 & H3).
  repeat (case_decide; [done|]). done.
Qed.

End flow_properties.

(** ** Ratings recorded by the questionnaire page *)

Lemma sorted_option_keys_eq :
  sorted_option_keys = [1; 2; 3; 4; 5; 6; 7; 8; 9; 10]%Z.
Proof. reflexivity. Qed.

Lemma selectbox_in_range (idx : option nat) :
  (∀ i, idx = Some i → i < 10) →
  ∃ v, selectbox sorted_option_keys idx = Some v ∧ (1 ≤ v ≤ 10)%Z.
Proof.
  intros Hi. unfold selectbox. rewrite sorted_option_keys_eq.
  destruct idx as [i|]; simpl; [|eexists; split; [done|lia]].
  specialize (Hi i eq_refl).
  do 10 (destruct i as [|i]; [eexists; split; [done|lia]|]). lia.
Qed.

Lemma catalog_pairs_keys dk sk :
  (dk, sk) ∈ catalog_pairs ↔ dk ∈ dimension_keys ∧ sk ∈ statement_keys dk.
Proof.
  split.
  - intros Hin. apply list_elem_of_In in Hin. vm_compute in Hin.
    repeat (destruct Hin as [Hin|Hin];
            [injection Hin as <- <-; split;
               [rewrite dimension_keys_eq; set_solver
               |apply list_elem_of_In; vm_compute; tauto]|]).
    done.
  - intros [Hd Hs]. revert Hd Hs.
    rewrite dimension_keys_eq, !elem_of_cons, elem_of_nil.
    intros Hd; destruct_or!; try done; subst dk; intros Hs;
      apply list_elem_of_In in Hs; vm_compute in Hs;
      repeat (destruct Hs as [<-|Hs]; [apply list_elem_of_In; vm_compute; tauto|]);
      done.
Qed.

Lemma statement_keys_length dk : dk ∈ dimension_keys → length (statement_keys dk) = 6.
Proof.
  rewrite dimension_keys_eq, !elem_of_cons, elem_of_nil.
  intros Hd; destruct_or!; try done; subst dk; reflexivity.
Qed.

(** What one stored response does to the recorded ratings. *)
Lemma rating_store_response q v sc dk sk :
  v ≠ 0%Z →
  rating (store_response q (Some v) sc) dk sk =
    if decide ((dk, sk) = question_pair q) then Some v else rating sc dk sk.
Proof.
  intros Hv. unfold store_response, rating, question_pair.
  rewrite bool_decide_eq_true_2 by done.
  destruct (decide (dk = dimension_key q)) as [->|Hdk].
  - rewrite lookup_alter_eq. case_bool_decide as Hdom.
    + rewrite lookup_insert_eq. simpl.
      apply not_elem_of_dom in Hdom. rewrite Hdom. simpl.
      case_decide as Hp.
      * injection Hp as ->. by rewrite lookup_insert_eq.
      * rewrite lookup_insert_ne by congruence. done.
    + apply elem_of_dom in Hdom as [d Hd]. rewrite Hd. simpl.
      case_decide as Hp.
      * injection Hp as ->. by rewrite lookup_insert_eq.
      * rewrite lookup_insert_ne by congruence. done.
  - rewrite lookup_alter_ne by done.
    rewrite decide_False by congruence.
    case_bool_decide; [by rewrite lookup_insert_ne|done].
Qed.

Lemma lookup_store_response q v sc dk d :
  v ≠ 0%Z →
  store_response q (Some v) sc !! dk = Some d →
  if decide (dk = dimension_key q)
  then d = <[statement_key q := v]> (default ∅ (sc !! dk))
  else sc !! dk = Some d.
Proof.
  intros Hv. unfold store_response.
  rewrite bool_decide_eq_true_2 by done.
  case_decide as Hdk.
  - subst dk. rewrite lookup_alter_eq. case_bool_decide as Hdom.
    + rewrite lookup_insert_eq. apply not_elem_of_dom in Hdom. rewrite Hdom.
      simpl. congruence.
    + apply elem_of_dom in Hdom as [d' Hd']. rewrite Hd'. simpl. congruence.
  - rewrite lookup_alter_ne by done.
    case_bool_decide; [by rewrite lookup_insert_ne|done].
Qed.

Lemma catalog_keyed_store_response q v sc :
  v ≠ 0%Z → question_pair q ∈ catalog_pairs →
  catalog_keyed sc → catalog_keyed (store_response q (Some v) sc).
Proof.
  intros Hv Hq Hcat dk d Hd.
  apply catalog_pairs_keys in Hq as [Hqd Hqs].
  apply lookup_store_response in Hd; [|done]. case_decide as Hdk.
  - subst dk d. split; [done|]. intros sk [x Hx].
    apply lookup_insert_Some in Hx as [[<- _]|[_ Hx]]; [done|].
    destruct (sc !! dimension_key q) as [d'|] eqn:E; simpl in Hx; [|done].
    by apply (Hcat _ _ E).
  - by apply Hcat.
Qed.

Definition rating_ok (sc : gmap string (gmap string Z)) (p : string * string) : Prop :=
  ∃ v, rating sc p.1 p.2 = Some v ∧ (1 ≤ v ≤ 10)%Z.

Lemma render_questions_spec widgets : ∀ (questions : list question) sc,
  widgets_in_range widgets →
  (∀ q, q ∈ questions → question_pair q ∈ catalog_pairs) →
  catalog_keyed sc →
  catalog_keyed (render_questions widgets questions sc) ∧
  (∀ p, rating_ok sc p → rating_ok (render_questions widgets questions sc) p) ∧
  (∀ q, q ∈ questions →
        rating_ok (render_questions widgets questions sc) (question_pair q)).
Proof.
  intros questions. induction questions as [|q qs IH]; intros sc Hw Hq Hcat.
  { split_and!; [done|done|]. intros q Hin. by apply not_elem_of_nil in Hin. }
  assert (Hsel : ∃ v, selectbox sorted_option_keys (widgets !! widget_key q) = Some v
                      ∧ (1 ≤ v ≤ 10)%Z).
  { apply selectbox_in_range. intros i Hi. by apply (Hw _ _ Hi). }
  destruct Hsel as (v & Hsel & Hv).
  unfold render_questions. simpl. rewrite Hsel.
  fold (render_questions widgets qs (store_response q (Some v) sc)).
  assert (Hv0 : v ≠ 0%Z) by lia.
  assert (Hstep : ∀ p, rating_ok sc p ∨ p = question_pair q →
                       rating_ok (store_response q (Some v) sc) p).
  { intros [dk sk] Hp. unfold rating_ok. cbn [fst snd].
    rewrite rating_store_response by done. case_decide as Heq.
    - by exists v.
    - destruct Hp as [Hp|Hp]; [exact Hp|done]. }
  destruct (IH (store_response q (Some v) sc)) as (IH1 & IH2 & IH3).
  - done.
  - intros q' Hq'. apply Hq. by right.
  - apply catalog_keyed_store_response; [done| |done]. apply Hq. by left.
  - split_and!; [done| |].
    + intros p Hp. apply IH2, Hstep. by left.
    + intros q' Hq'. apply elem_of_cons in Hq' as [->|Hq'].
      * apply IH2, Hstep. by right.
      * by apply IH3.
Qed.

Lemma foldr_add_bounds (f : string → Z) (l : list string) :
  (∀ k, k ∈ l → (1 ≤ f k ≤ 10)%Z) →
  (Z.of_nat (length l) ≤ foldr (λ k acc, (f k + acc)%Z) 0%Z l
     ≤ 10 * Z.of_nat (length l))%Z.
Proof.
  induction l as [|k l IH]; intros Hf; simpl; [lia|].
  pose proof (Hf k ltac:(by left)).
  assert (∀ j, j ∈ l → (1 ≤ f j ≤ 10)%Z) as Hl by (intros; apply Hf; by right).
  specialize (IH Hl). lia.
Qed.

Lemma complete_scores_totals sc dk :
  complete_scores sc → dk ∈ dimension_keys →
  ∃ t, calculate_dimension_score sc dk = Ok t ∧ (6 ≤ t ≤ 60)%Z.
Proof.
  intros [Hcat Hall] Hdk. exists (recorded_sum sc dk). split.
  - apply (calculate_recorded_sum sc dk Hcat).
  - unfold recorded_sum.
    pose proof (foldr_add_bounds (λ sk, default 0%Z (rating sc dk sk))
                  (statement_keys dk)) as Hb.
    rewrite (statement_keys_length dk Hdk) in Hb. apply Hb.
    intros sk Hsk. destruct (Hall dk sk) as (v & -> & Hv); [|done].
    by apply catalog_pairs_keys.
Qed.

Lemma document_codec_laws : JsonCodecLaws (option json).
Proof. by intros j _. Qed.

Lemma wizard_questions_spec r s :
  (∀ qs, randomized_questions s = Some qs → qs ≡ₚ all_questions) →
  ∃ qs r', qs ≡ₚ all_questions ∧
    (wizard_questions r s = (qs, s, r') ∨
     wizard_questions r s = (qs, set_randomized_questions qs s, r')).
Proof.
  intros Hs. unfold wizard_questions.
  destruct (randomized_questions s) as [qs|] eqn:E.
  - exists qs, r. split; [by apply Hs|by left].
  - pose proof (shuffle_perm r all_questions) as Hp.
    destruct (shuffle r all_questions) as [qs r']. exists qs, r'.
    split; [done|by right].
Qed.

Lemma questions_cover_catalog (qs : list question) :
  qs ≡ₚ all_questions →
  (∀ q, q ∈ qs → question_pair q ∈ catalog_pairs) ∧
  (∀ p, p ∈ catalog_pairs → ∃ q, q ∈ qs ∧ question_pair q = p).
Proof.
  intros Hp. split.
  - intros q Hq. rewrite <- all_questions_pairs, <- Hp.
    apply list_elem_of_fmap. eauto.
  - intros p Hin. rewrite <- all_questions_pairs, <- Hp in Hin.
    apply list_elem_of_fmap in Hin as (q & -> & Hq). eauto.
Qed.

Lemma render_questions_complete widgets qs sc :
  widgets_in_range widgets → qs ≡ₚ all_questions → catalog_keyed sc →
  complete_scores (render_questions widgets qs sc).
Proof.
  intros Hw Hp Hcat. destruct (questions_cover_catalog qs Hp) as [Hin Hcov].
  destruct (render_questions_spec widgets qs sc Hw Hin Hcat) as (H1 & _ & H3).
  split; [done|]. intros dk sk Hpair.
  destruct (Hcov _ Hpair) as (q & Hq & Heq).
  specialize (H3 q Hq). rewrite Heq in H3. exact H3.
Qed.

(** ** What the selection widgets hold is what gets stored *)

Lemma selectbox_value (idx : option nat) :
  (∀ i, idx = Some i → i < 10) →
  selectbox sorted_option_keys idx = Some (Z.of_nat (default 0%nat idx) + 1)%Z.
Proof.
  intros Hi. unfold selectbox. rewrite sorted_option_keys_eq.
  destruct idx as [i|]; simpl; [|done].
  specialize (Hi i eq_refl).
  do 10 (destruct i as [|i]; [done|]). lia.
Qed.

Lemma all_questions_pairs_NoDup : NoDup (question_pair <$> all_questions).
Proof. rewrite all_questions_pairs. apply catalog_pairs_NoDup. Qed.

Lemma render_questions_cons w q qs sc :
  render_questions w (q :: qs) sc =
  render_questions w qs
    (store_response q (selectbox sorted_option_keys (w !! widget_key q)) sc).
Proof. reflexivity. Qed.

Lemma render_questions_rating w : ∀ (qs : list question) sc,
  widgets_in_range w → NoDup (question_pair <$> qs) →
  (∀ q, q ∈ qs →
     rating (render_questions w qs sc) (dimension_key q) (statement_key q)
       = selectbox sorted_option_keys (w !! widget_key q)) ∧
  (∀ dk sk, (dk, sk) ∉ question_pair <$> qs →
     rating (render_questions w qs sc) dk sk = rating sc dk sk).
Proof.
  induction qs as [|q qs IH]; intros sc Hw Hnd.
  { split; [intros q Hq; by apply not_elem_of_nil in Hq|done]. }
  rewrite fmap_cons in Hnd. apply NoDup_cons in Hnd as [Hq Hnd].
  rewrite render_questions_cons.
  destruct (selectbox_in_range (w !! widget_key q)) as (v & Hsel & Hv).
  { intros i Hi. by apply (Hw _ _ Hi). }
  rewrite Hsel. assert (Hv0 : v ≠ 0%Z) by lia.
  destruct (IH (store_response q (Some v) sc) Hw Hnd) as [IH1 IH2]. split.
  - intros q' Hq'. apply elem_of_cons in Hq' as [->|Hq']; [|by apply IH1].
    rewrite IH2 by done. rewrite rating_store_response by done.
    by rewrite decide_True.
  - intros dk sk Hout. rewrite fmap_cons in Hout.
    apply not_elem_of_cons in Hout as [Hne Hout].
    rewrite IH2 by done. rewrite rating_store_response by done.
    by rewrite decide_False.
Qed.

Lemma rating_is_widget_choice w qs sc q :
  widgets_in_range w → qs ≡ₚ all_questions → q ∈ all_questions →
  rating (render_questions w qs sc) (dimension_key q) (statement_key q)
    = selectbox sorted_option_keys (w !! widget_key q).
Proof.
  intros Hw Hp Hq.
  assert (Hnd : NoDup (question_pair <$> qs)).
  { rewrite Hp. apply all_questions_pairs_NoDup. }
  apply (render_questions_rating w qs sc Hw Hnd). by rewrite Hp.
Qed.

Section wizard_properties.
Context {text : Type} `{FileSystem text}.

(** ** Writing the file *)

Lemma storable_dec (filename : string) :
  storable (text := text) filename ∨ ¬ storable (text := text) filename.
Proof.
  unfold storable.
  destruct (name_error filename), (path_head filename);
    first [by left | right; by intros [??]].
Qed.

Lemma open_write_storable filename (content : text) files :
  storable (text := text) filename →
  open_write filename content files = Ok (<[filename := content]> files).
Proof. intros [Hn Hp]. unfold open_write. by rewrite Hn, Hp. Qed.

Lemma open_write_not_storable filename (content : text) files :
  ¬ storable (text := text) filename →
  ∃ e, open_write filename content files = Raise e.
Proof.
  intros Hn. unfold open_write, storable in *.
  destruct (name_error filename) as [e|]; [by eauto|].
  destruct (path_head filename) as [head|]; [|by destruct Hn].
  destruct (files !! head); eauto.
Qed.

Lemma open_write_Ok filename (content : text) files files' :
  open_write filename content files = Ok files' ↔
  storable (text := text) filename ∧ files' = <[filename := content]> files.
Proof.
  split.
  - intros Hok. destruct (storable_dec filename) as [Hs|Hs].
    + rewrite (open_write_storable _ _ _ Hs) in Hok. injection Hok as <-. done.
    + destruct (open_write_not_storable filename content files Hs) as [e He].
      by rewrite He in Hok.
  - intros [Hs ->]. by apply open_write_storable.
Qed.

(** The save either stores the document under its name and returns, or
    raises and leaves the directory (created if need be) without it;
    which of the two depends on the name alone. *)
Lemma save_assessment_data_cases s now now' (data : @directory text) :
  (storable (text := text) (assessment_filename s now') ∧
   save_assessment_data s now now' data =
     (Some (<[assessment_filename s now' := json_dump (assessment_data s now)]>
              (ensure_data data)), Ok ())) ∨
  (¬ storable (text := text) (assessment_filename s now') ∧
   ∃ e, save_assessment_data s now now' data = (Some (ensure_data data), Raise e)).
Proof.
  unfold save_assessment_data.
  destruct (storable_dec (assessment_filename s now')) as [Hs|Hs].
  - left. split; [done|]. by rewrite (open_write_storable _ _ _ Hs).
  - right. split; [done|].
    destruct (open_write_not_storable (assessment_filename s now')
                (json_dump (assessment_data s now)) (ensure_data data) Hs) as [e He].
    exists e. by rewrite He.
Qed.

(** The questionnaire page, with the sequence it works on made explicit. *)
Lemma show_wizard_page_shape r complete now now' s (data : @directory text) :
  (∀ qs, randomized_questions s = Some qs → qs ≡ₚ all_questions) →
  ∃ qs s1, qs ≡ₚ all_questions ∧
    (s1 = s ∨ s1 = set_randomized_questions qs s) ∧
    show_wizard_page r complete now now' s data =
      let s2 := set_scores (render_questions (widget_index s) qs (scores s)) s1 in
      if complete then
        match save_assessment_data s2 now now' data with
        | (data', Ok _) => (set_page "thank_you" s2, data', Ok Rerun)
        | (data', Raise e) => (s2, data', Raise e)
        end
      else (s2, data, Ok Idle).
Proof.
  intros Hseq. unfold show_wizard_page.
  destruct (wizard_questions_spec r s Hseq) as (qs & r' & Hp & [E|E]); rewrite E.
  - exists qs, s. split_and!; [done|by left|done].
  - exists qs, (set_randomized_questions qs s). split_and!; [done|by right|done].
Qed.

(** C10. The selection widget offers exactly 1..10 and shows 1 until it is
    touched.  With every widget holding one of its options, a rendering of
    the questionnaire page stores, for every statement of the catalog, the
    option its widget holds (option number [i + 1] for the widget's index
    [i], 1 for an untouched widget) and nothing else: every (dimension,
    statement) pair has a rating between 1 and 10 and every dimension total
    lies between 6 and 60.  When the assessment is completed in that run
    and the save returns, the page becomes the thank-you page and the file
    written holds exactly these scores; when the save raises, nothing is
    written and the session stays on the questionnaire.  The save returns
    exactly when the file name can be stored. *)
Theorem wizard_records_all_ratings
    (r : random_state) (complete : bool) (now now' : datetime)
    (s : session_state) (data : @directory text) :
  catalog_keyed (scores s) →
  widgets_in_range (widget_index s) →
  (∀ qs, randomized_questions s = Some qs → qs ≡ₚ all_questions) →
  let '(s', data', out) := show_wizard_page r complete now now' s data in
  sorted_option_keys = [1; 2; 3; 4; 5; 6; 7; 8; 9; 10]%Z ∧
  selectbox sorted_option_keys None = Some 1%Z ∧
  (∀ q, q ∈ all_questions →
     rating (scores s') (dimension_key q) (statement_key q)
       = Some (Z.of_nat (default 0%nat (widget_index s !! widget_key q)) + 1)%Z) ∧
  complete_scores (scores s') ∧
  (∀ dk, dk ∈ dimension_keys →
     ∃ t, calculate_dimension_score (scores s') dk = Ok t ∧ (6 ≤ t ≤ 60)%Z) ∧
  (complete = false → out = Ok Idle ∧ data' = data ∧ page s' = page s) ∧
  (complete = true →
     (storable (text := text) (assessment_filename s' now') ∧
      out = Ok Rerun ∧ page s' = "thank_you" ∧
      data' = Some (<[assessment_filename s' now' := json_dump (assessment_data s' now)]>
                      (ensure_data data))) ∨
     (¬ storable (text := text) (assessment_filename s' now') ∧
      (∃ e, out = Raise e) ∧ page s' = page s ∧
      data' = Some (ensure_data data))).
Proof.
  intros Hcat Hw Hseq.
  destruct (show_wizard_page_shape r complete now now' s data Hseq)
    as (qs & s1 & Hp & Hs1 & ->).
  pose proof (render_questions_complete (widget_index s) qs (scores s) Hw Hp Hcat)
    as Hc.
  assert (Hsel : ∀ q, q ∈ all_questions →
            rating (render_questions (widget_index s) qs (scores s))
                   (dimension_key q) (statement_key q)
            = Some (Z.of_nat (default 0%nat (widget_index s !! widget_key q)) + 1)%Z).
  { intros q Hq. rewrite rating_is_widget_choice by done.
    apply selectbox_value. intros i Hi. by apply (Hw _ _ Hi). }
  assert (Hpage : page s1 = page s) by (by destruct Hs1 as [->| ->]).
  cbv zeta.
  remember (set_scores (render_questions (widget_index s) qs (scores s)) s1)
    as s2 eqn:Hs2.
  assert (Hsc : scores s2 = render_questions (widget_index s) qs (scores s))
    by (by subst s2).
  assert (Hpg : page s2 = page s) by (by subst s2).
  destruct complete.
  - destruct (save_assessment_data_cases s2 now now' data)
      as [[Hst ->]|[Hst [e ->]]]; cbn [scores set_page page].
    + rewrite Hsc. split_and!; [done|done|exact Hsel|exact Hc| |done|].
      * intros dk Hdk. by apply complete_scores_totals.
      * intros _. left. by split_and!.
    + rewrite Hsc. split_and!; [done|done|exact Hsel|exact Hc| |done|].
      * intros dk Hdk. by apply complete_scores_totals.
      * intros _. right. split_and!; [done|by eauto|done|done].
  - rewrite Hsc. split_and!; [done|done|exact Hsel|exact Hc| |done|done].
    intros dk Hdk. by apply complete_scores_totals.
Qed.

End wizard_properties.

(** ** The properties at sample inputs *)

Lemma intake_transition_witness :
  let s := initial_session_state sample_time in
  let data : @directory (option json) := None in
  is_coach (query_params sample_input) = false ∧
  page s = "welcome" ∧
  form_submitted sample_input = true ∧
  ∃ s' sig,
    main (Raise KeyError) sample_input s data = Ok (WelcomeView, s', data, sig) ∧
    sig = Rerun ∧ page s' = "assessment".
Proof.
  intros s data. split_and!; [reflexivity..|].
  destruct (intake_transition (Raise KeyError) sample_input s data
              eq_refl eq_refl eq_refl) as (s' & sig & Hm & Hiff & Hok & _).
  exists s', sig. split_and!; [exact Hm| |].
  - apply Hiff. by split.
  - apply Hok. by split.
Defined.

Lemma dimension_page_raises_witness :
  let s := set_page "team_leadership" (initial_session_state sample_time) in
  let data : @directory (option json) := None in
  is_coach (query_params sample_input) = false ∧
  page s ∈ dimension_keys ∧
  main (Raise KeyError) sample_input s data = Raise TypeError.
Proof.
  intros s data.
  assert (Hp : page s ∈ dimension_keys).
  { rewrite dimension_keys_eq. set_solver. }
  split_and!; [reflexivity|exact Hp|].
  exact (proj2 (dimension_page_raises (Raise KeyError) sample_input s data)
           eq_refl Hp).
Defined.

Lemma sample_widgets_in_range : widgets_in_range sample_widgets.
Proof.
  intros k i Hk. unfold sample_widgets in Hk.
  apply elem_of_list_to_map_2, list_elem_of_fmap in Hk as (q' & [= _ ->] & _). lia.
Qed.

Lemma wizard_records_all_ratings_witness :
  let s := set_widget_index sample_widgets
             (coachee_info_form true "Jane Doe" "jane@example.com" "" sample_time
                (initial_session_state sample_time)).1 in
  let data : @directory (option json) := None in
  catalog_keyed (scores s) ∧
  widgets_in_range (widget_index s) ∧
  (∀ qs, randomized_questions s = Some qs → qs ≡ₚ all_questions) ∧
  rating
    (scores (show_wizard_page (rng sample_input) true sample_time sample_time s data).1.1)
    "purpose_vision" "vision" = Some 10%Z ∧
  rating
    (scores (show_wizard_page (rng sample_input) true sample_time sample_time s data).1.1)
    "team_leadership" "collaboration" = Some 1%Z ∧
  complete_scores
    (scores (show_wizard_page (rng sample_input) true sample_time sample_time s data).1.1).
Proof.
  intros s data.
  assert (H1 : catalog_keyed (scores s)) by (intros dk d Hd; done).
  assert (H2 : widgets_in_range (widget_index s)) by exact sample_widgets_in_range.
  assert (H3 : ∀ qs, randomized_questions s = Some qs → qs ≡ₚ all_questions)
    by (intros qs Hqs; done).
  split_and!; [exact H1|exact H2|exact H3|..].
  all: pose proof (wizard_records_all_ratings (rng sample_input) true
                     sample_time sample_time s data H1 H2 H3) as Hw;
    destruct (show_wizard_page _ _ _ _ _ _) as [[s' data'] out];
    destruct Hw as (_ & _ & Hsel & Hc & _).
  - apply (Hsel {| dimension_key := "purpose_vision"; statement_key := "vision";
                   statement := "Creates and effectively communicates a compelling vision for the future";
                   question_number := 1 |}).
    apply list_elem_of_In. vm_compute. tauto.
  - apply (Hsel {| dimension_key := "team_leadership"; statement_key := "collaboration";
                   statement := "Promotes effective collaboration and teamwork across the group";
                   question_number := 31 |}).
    apply list_elem_of_In. vm_compute. tauto.
  - exact Hc.
Defined.

(** ** File names *)

Lemma string_app_nil (x : string) : "" +:+ x = x.
Proof. reflexivity. Qed.

Lemma string_app_cons c (a x : string) : String c a +:+ x = String c (a +:+ x).
Proof. reflexivity. Qed.

Lemma string_length_app (a b : string) :
  String.length (a +:+ b) = String.length a + String.length b.
Proof.
  induction a as [|c a IH]; [done|].
  rewrite string_app_cons. simpl. by rewrite IH.
Qed.

(** Two concatenations with tails of the same length agree piecewise. *)
Lemma string_app_inj_tail : ∀ (a b x y : string),
  String.length x = String.length y → a +:+ x = b +:+ y → a = b ∧ x = y.
Proof.
  induction a as [|c a IH]; intros [|c' b] x y Hlen Heq;
    rewrite ?string_app_nil, ?string_app_cons in Heq.
  - done.
  - subst x. simpl in Hlen. rewrite string_length_app in Hlen. lia.
  - subst y. simpl in Hlen. rewrite string_length_app in Hlen. lia.
  - injection Heq as -> Heq. destruct (IH b x y Hlen Heq) as [-> ->]. done.
Qed.

Lemma zfill_length w : ∀ n, String.length (zfill w n) = w.
Proof.
  induction w as [|w IH]; intros n; [done|].
  cbn [zfill]. rewrite string_length_app, IH. simpl. lia.
Qed.

Lemma strftime_compact_length t : String.length (strftime_compact t) = 15.
Proof.
  unfold strftime_compact. rewrite !string_length_app, !zfill_length. done.
Qed.

Lemma endswith_refl (x : string) : endswith x x = true.
Proof. destruct x; cbn [endswith]; by rewrite decide_True. Qed.

Lemma endswith_app (a x suffix : string) :
  endswith x suffix = true → endswith (a +:+ x) suffix = true.
Proof.
  intros Hx. induction a as [|c a IH]; [done|].
  rewrite string_app_cons. cbn [endswith]. case_decide; done.
Qed.

(** ** Names with a path separator *)

Lemma path_head_app_Some (a b h : string) :
  path_head a = Some h → path_head (a +:+ b) = Some h.
Proof.
  revert h. induction a as [|c a IH]; intros h Ha; [done|].
  rewrite string_app_cons. cbn [path_head] in *. case_decide; [done|].
  destruct (path_head a) as [h'|]; [|done]. by rewrite (IH h' eq_refl).
Qed.

Lemma path_head_app_None (a b : string) :
  path_head a = None → path_head (a +:+ b) = String.app a <$> path_head b.
Proof.
  induction a as [|c a IH]; intros Ha.
  { rewrite string_app_nil. by destruct (path_head b). }
  rewrite string_app_cons. cbn [path_head] in *. case_decide; [done|].
  destruct (path_head a) as [h'|]; [done|]. rewrite (IH eq_refl).
  by destruct (path_head b).
Qed.

Lemma digit_not_separator n : digit n ≠ "/"%char.
Proof.
  unfold digit. intros Hd. apply (f_equal nat_of_ascii) in Hd.
  pose proof (Nat.mod_upper_bound n 10 ltac:(lia)).
  rewrite nat_ascii_embedding in Hd by lia.
  change (nat_of_ascii "/") with 47 in Hd. lia.
Qed.

Lemma path_head_zfill w : ∀ n, path_head (zfill w n) = None.
Proof.
  induction w as [|w IH]; intros n; [done|].
  cbn [zfill]. rewrite path_head_app_None by apply IH.
  cbn [path_head]. rewrite decide_False by apply digit_not_separator. done.
Qed.

Lemma path_head_strftime_compact t : path_head (strftime_compact t) = None.
Proof.
  unfold strftime_compact.
  repeat (rewrite path_head_app_None by first [apply path_head_zfill | done]).
  by rewrite path_head_zfill.
Qed.

Section naming.
Context {text : Type} `{FileSystem text}.

Lemma assessment_filename_endswith s t :
  endswith (assessment_filename s t) ".json" = true.
Proof.
  unfold assessment_filename. do 4 apply endswith_app. apply endswith_refl.
Qed.

Lemma assessment_filename_inj s1 s2 t1 t2 :
  assessment_filename s1 t1 = assessment_filename s2 t2 →
  fstr (coachee_email s1) = fstr (coachee_email s2) ∧
  strftime_compact t1 = strftime_compact t2.
Proof.
  unfold assessment_filename. intros Heq.
  apply (inj (String.app "assessment_")) in Heq.
  apply string_app_inj_tail in Heq as [He Heq].
  - split; [done|].
    apply (inj (String.app "_")) in Heq.
    by apply string_app_inj_tail in Heq as [Ht _].
  - by rewrite !string_length_app, !strftime_compact_length.
Qed.

(** The file name has a path separator exactly when the email has one,
    and then its first component is ["assessment_"] followed by the
    email's. *)
Lemma path_head_assessment_filename s t :
  path_head (assessment_filename s t)
    = String.app "assessment_" <$> path_head (fstr (coachee_email s)).
Proof.
  unfold assessment_filename.
  rewrite (path_head_app_None "assessment_") by done. f_equal.
  destruct (path_head (fstr (coachee_email s))) as [h|] eqn:E.
  - by apply path_head_app_Some.
  - rewrite path_head_app_None by done.
    rewrite (path_head_app_None "_") by done.
    rewrite path_head_app_None by apply path_head_strftime_compact. done.
Qed.

(** *** One save, call by call *)

Lemma save_step_saver (p : saver) (data : @directory text) :
  saver_session (save_step p data).1 = saver_session p ∧
  saver_now (save_step p data).1 = saver_now p ∧
  saver_now' (save_step p data).1 = saver_now' p.
Proof.
  unfold save_step.
  destruct (saver_pc p); [|destruct data|destruct data as [files|]|..]; try done.
  by destruct (open_write _ _ files).
Qed.

(** Left alone, the calls of one save do what [save_assessment_data]
    does. *)
Lemma run_savers_alone s now now' (p2 : saver) (data : @directory text) :
  run_savers [true; true; true] (start_save s now now') p2 data =
    (set_saver_pc (match (save_assessment_data s now now' data).2 with
                   | Ok _ => Saved
                   | Raise e => Failed e
                   end) (start_save s now now'),
     p2, (save_assessment_data s now now' data).1).
Proof.
  unfold save_assessment_data.
  destruct data as [files|]; cbn [run_savers save_step start_save saver_pc
    set_saver_pc saver_session saver_now saver_now' ensure_data default];
    by destruct (open_write _ _ _).
Qed.

(** Once the directory exists, a call of a save leaves it a directory; it
    changes at most the file of that save. *)
Lemma save_step_Some (p : saver) (files : gmap string text) :
  ∃ files', (save_step p (Some files)).2 = Some files' ∧
    ∀ name, name ≠ assessment_filename (saver_session p) (saver_now' p) →
            files' !! name = files !! name.
Proof.
  unfold save_step. destruct (saver_pc p); try by (eexists; split).
  destruct (open_write _ _ files) as [files'|e] eqn:E; [|by eexists; split].
  apply open_write_Ok in E as [_ ->]. eexists. split; [done|].
  intros name Hne. by rewrite lookup_insert_ne.
Qed.

Lemma save_step_failed (p : saver) (data : @directory text) e :
  saver_pc p = Failed e → save_step p data = (p, data).
Proof. intros Hp. unfold save_step. by rewrite Hp. Qed.

(** A save that has failed stays failed, and its file never appears,
    whatever the other save does. *)
Lemma run_savers_second_failed (schedule : list bool) :
  ∀ (p1 p2 : saver) (files : gmap string text) e,
    saver_pc p2 = Failed e →
    assessment_filename (saver_session p1) (saver_now' p1)
      ≠ assessment_filename (saver_session p2) (saver_now' p2) →
    files !! assessment_filename (saver_session p2) (saver_now' p2) = None →
    ∃ q1 files',
      run_savers schedule p1 p2 (Some files) = (q1, p2, Some files') ∧
      files' !! assessment_filename (saver_session p2) (saver_now' p2) = None.
Proof.
  induction schedule as [|b schedule IH]; intros p1 p2 files e Hp2 Hne Hnone.
  { by exists p1, files. }
  destruct b; cbn [run_savers].
  - destruct (save_step_Some p1 files) as (files1 & Hd & Hother).
    destruct (save_step_saver p1 (Some files)) as (Hs & _ & Ht).
    destruct (save_step p1 (Some files)) as [p1' d1]. simpl in *. subst d1.
    apply (IH p1' p2 files1 e Hp2).
    + by rewrite Hs, Ht.
    + rewrite Hother; [done|]. by intros Heq; apply Hne.
  - rewrite (save_step_failed p2 _ e Hp2). by apply (IH p1 p2 files e).
Qed.

(** Two saves that both find no ['data'] directory interfere.
    [save_assessment_data] asks whether the directory exists and creates it
    in two separate calls; when neither save finds it and both go on to
    create it, the later [os.makedirs] raises [FileExistsError]: that save
    fails, and however the calls go on from there its record is never
    written. *)
Theorem concurrent_first_saves_interfere
    (s1 s2 : session_state) (e1 e2 : string)
    (t1 t1' t2 t2' : datetime) (rest : list bool) :
  coachee_email s1 = Some e1 → coachee_email s2 = Some e2 → e1 ≠ e2 →
  assessment_filename s1 t1' ≠ assessment_filename s2 t2' ∧
  ∃ p1 files,
    run_savers ([true; false; true; false] ++ rest)
      (start_save s1 t1 t1') (start_save s2 t2 t2') (None : @directory text)
    = (p1, set_saver_pc (Failed FileExistsError) (start_save s2 t2 t2'), Some files) ∧
    files !! assessment_filename s2 t2' = None.
Proof.
  intros H1 H2 Hne.
  assert (Hnames : assessment_filename s1 t1' ≠ assessment_filename s2 t2').
  { intros Heq. apply assessment_filename_inj in Heq as [He _].
    rewrite H1, H2 in He. simpl in He. done. }
  split; [done|].
  destruct (run_savers_second_failed rest
              (set_saver_pc AtOpen (start_save s1 t1 t1'))
              (set_saver_pc (Failed FileExistsError) (start_save s2 t2 t2'))
              ∅ FileExistsError eq_refl Hnames (lookup_empty _))
    as (q1 & files' & Hrun & Hnone).
  exists q1, files'. split; [|exact Hnone].
  rewrite <- Hrun. reflexivity.
Qed.

(** In a directory that exists, two saves under different storable names
    do not disturb each other: however their calls are interleaved, once
    each has made its two calls both documents are in the directory, and
    nothing else has changed. *)
Lemma run_savers_both_stored (schedule : list bool) :
  ∀ (p1 p2 : saver) (files : gmap string text),
    let f1 := assessment_filename (saver_session p1) (saver_now' p1) in
    let f2 := assessment_filename (saver_session p2) (saver_now' p2) in
    let c1 := json_dump (assessment_data (saver_session p1) (saver_now p1)) in
    let c2 := json_dump (assessment_data (saver_session p2) (saver_now p2)) in
    storable (text := text) f1 → storable (text := text) f2 → f1 ≠ f2 →
    (saver_pc p1 = AtExists ∨ saver_pc p1 = AtOpen ∨ saver_pc p1 = Saved) →
    (saver_pc p2 = AtExists ∨ saver_pc p2 = AtOpen ∨ saver_pc p2 = Saved) →
    match saver_pc p1 with AtExists => 2 | AtOpen => 1 | _ => 0 end
      ≤ length (filter (λ b, b = true) schedule) →
    match saver_pc p2 with AtExists => 2 | AtOpen => 1 | _ => 0 end
      ≤ length (filter (λ b, b = false) schedule) →
    run_savers schedule p1 p2
      (Some (match saver_pc p2 with Saved => <[f2 := c2]> | _ => id end
               (match saver_pc p1 with Saved => <[f1 := c1]> | _ => id end files)))
    = (set_saver_pc Saved p1, set_saver_pc Saved p2,
       Some (<[f2 := c2]> (<[f1 := c1]> files))).
Proof.
  induction schedule as [|b schedule IH]; cbv zeta;
    intros p1 p2 files Hs1 Hs2 Hne Hp1 Hp2 Hn1 Hn2.
  { destruct p1 as [a1 b1 d1 pc1], p2 as [a2 b2 d2 pc2]. simpl in *.
    destruct Hp1 as [->|[->| ->]]; simpl in Hn1; try lia.
    destruct Hp2 as [->|[->| ->]]; simpl in Hn2; try lia. done. }
  cbv zeta in IH. destruct b; cbn [run_savers].
  - rewrite filter_cons_True in Hn1 by done.
    rewrite filter_cons_False in Hn2 by done. simpl in Hn1.
    destruct p1 as [a1 b1 d1 pc1]. simpl in *.
    destruct Hp1 as [->|[->| ->]]; unfold save_step; simpl.
    + apply (IH {| saver_session := a1; saver_now := b1; saver_now' := d1;
                   saver_pc := AtOpen |} p2 files); simpl; auto; lia.
    + rewrite (open_write_storable _ _ _ Hs1).
      etrans; [|apply (IH {| saver_session := a1; saver_now := b1; saver_now' := d1;
                              saver_pc := Saved |} p2 files); simpl; auto; lia].
      simpl. do 2 f_equal.
      destruct (saver_pc p2); try done. by apply insert_insert_ne.
    + apply (IH {| saver_session := a1; saver_now := b1; saver_now' := d1;
                   saver_pc := Saved |} p2 files); simpl; auto; lia.
  - rewrite filter_cons_False in Hn1 by done.
    rewrite filter_cons_True in Hn2 by done. simpl in Hn2.
    destruct p2 as [a2 b2 d2 pc2]. simpl in *.
    destruct Hp2 as [->|[->| ->]]; unfold save_step; simpl.
    + apply (IH p1 {| saver_session := a2; saver_now := b2; saver_now' := d2;
                      saver_pc := AtOpen |} files); simpl; auto; lia.
    + rewrite (open_write_storable _ _ _ Hs2).
      apply (IH p1 {| saver_session := a2; saver_now := b2; saver_now' := d2;
                      saver_pc := Saved |} files); simpl; auto; lia.
    + apply (IH p1 {| saver_session := a2; saver_now := b2; saver_now' := d2;
                      saver_pc := Saved |} files); simpl; auto; lia.
Qed.


(** The older [save_assessment_results] names the file by the timestamp
    alone: a second save within the same second replaces the first. *)
Lemma save_assessment_results_same_second
    (sc1 sc2 : gmap string (gmap string Z)) (t : datetime) (data : @directory text) :
  ∃ files,
    save_assessment_results sc2 t (save_assessment_results sc1 t data) = Some files ∧
    files = <[ "assessment_" +:+ strftime_compact t +:+ ".json" :=
               json_dump (JDict [ ("scores", scores_to_json sc2);
                                  ("timestamp", JStr (isoformat t)) ]) ]>
              (ensure_data data).
Proof.
  eexists. split; [reflexivity|]. simpl. by rewrite insert_insert_eq.
Qed.

End naming.

(** Where two saves do get in each other's way.  Run one after the other
    from no directory, Jane's save is stored and the save of a respondent
    whose email is ["n/a"] raises: the second record is not written.  And
    when Jane's and Joe's saves both find no directory and both go on to
    create it, Joe's raises [FileExistsError] and his record is not
    written either. *)
Lemma saves_do_interfere :
  let jane := (coachee_info_form true "Jane Doe" "jane@example.com" "" sample_time
                 (initial_session_state sample_time)).1 in
  let joe := (coachee_info_form true "Joe Bloggs" "joe@example.com" "" sample_time
                (initial_session_state sample_time)).1 in
  let na := (coachee_info_form true "Nat Adams" "n/a" "" sample_time
               (initial_session_state sample_time)).1 in
  let after_jane : @directory (option json) :=
    (save_assessment_data jane sample_time sample_time None).1 in
  coachee_email jane ≠ coachee_email na ∧
  coachee_email jane ≠ coachee_email joe ∧
  save_assessment_data na sample_time sample_time after_jane
    = (after_jane, Raise FileNotFoundError) ∧
  ∃ files,
    run_savers [true; false; true; false; true; false]
      (start_save jane sample_time sample_time) (start_save joe sample_time sample_time)
      (None : @directory (option json))
    = (set_saver_pc Saved (start_save jane sample_time sample_time),
       set_saver_pc (Failed FileExistsError) (start_save joe sample_time sample_time),
       Some files) ∧
    files !! assessment_filename joe sample_time = None.
Proof.
  intros jane joe na after_jane. split_and!; [done|done|reflexivity|].
  eexists. split; reflexivity.
Qed.


Lemma concurrent_first_saves_interfere_witness :
  let s1 := (coachee_info_form true "Jane Doe" "jane@example.com" "" sample_time
               (initial_session_state sample_time)).1 in
  let s2 := (coachee_info_form true "Joe Bloggs" "joe@example.com" "" sample_time
               (initial_session_state sample_time)).1 in
  coachee_email s1 = Some "jane@example.com" ∧
  coachee_email s2 = Some "joe@example.com" ∧
  "jane@example.com" ≠ "joe@example.com" ∧
  ∃ p1 files,
    run_savers [true; false; true; false; true; false]
      (start_save s1 sample_time sample_time) (start_save s2 sample_time sample_time)
      (None : @directory (option json))
    = (p1, set_saver_pc (Failed FileExistsError) (start_save s2 sample_time sample_time),
       Some files) ∧
    files !! "assessment_joe@example.com_20240517_093012.json" = None.
Proof.
  intros s1 s2.
  assert (Hne : "jane@example.com" ≠ "joe@example.com") by done.
  split_and!; [reflexivity|reflexivity|exact Hne|].
  exact (proj2 (concurrent_first_saves_interfere (text := option json)
           s1 s2 _ _ sample_time sample_time sample_time sample_time [true; false]
           eq_refl eq_refl Hne)).
Defined.

(** ** Deleting a record *)

Section delete_properties.
Context {text : Type}.

(** C6 (as the code has it). Deleting a record that exists removes that
    file and no other and reports success.  Deleting one that does not
    exist, the second of two consecutive deletes included, raises
    [FileNotFoundError] out of the handler; nothing is reported and the
    directory stays as it was. *)
Theorem delete_existing_then_missing
    (filename : string) (files : gmap string text) (c : text) :
  files !! filename = Some c →
  confirm_yes_delete filename files
    = Ok (delete filename files, "Assessment deleted successfully!") ∧
  delete filename files !! filename = None ∧
  (∀ other, other ≠ filename → delete filename files !! other = files !! other) ∧
  confirm_yes_delete filename (delete filename files) = Raise FileNotFoundError.
Proof.
  intros Hin. unfold confirm_yes_delete, os_remove. rewrite Hin.
  rewrite lookup_delete_eq. split_and!; [done|done| |done].
  intros other Hne. by rewrite lookup_delete_ne.
Qed.

Lemma delete_missing_raises (filename : string) (files : gmap string text) :
  files !! filename = None →
  confirm_yes_delete filename files = Raise FileNotFoundError.
Proof. intros Hn. unfold confirm_yes_delete, os_remove. by rewrite Hn. Qed.

End delete_properties.

Lemma delete_existing_then_missing_witness :
  let files : gmap string (option json) := {[ "assessment_a@b.c_20240517_093012.json" := None ]} in
  files !! "assessment_a@b.c_20240517_093012.json" = Some None ∧
  confirm_yes_delete "assessment_a@b.c_20240517_093012.json" files
    = Ok (delete "assessment_a@b.c_20240517_093012.json" files,
          "Assessment deleted successfully!").
Proof.
  intros files. split; [reflexivity|].
  exact (proj1 (delete_existing_then_missing
                  "assessment_a@b.c_20240517_093012.json" files None eq_refl)).
Defined.

(** The second of two consecutive deletes does not come back with a
    report: it raises. *)
Lemma second_delete_not_reported :
  let files : gmap string (option json) := {[ "assessment_a@b.c_20240517_093012.json" := None ]} in
  ∃ files' msg,
    confirm_yes_delete "assessment_a@b.c_20240517_093012.json" files = Ok (files', msg) ∧
    ¬ ∃ out, confirm_yes_delete "assessment_a@b.c_20240517_093012.json" files' = Ok out.
Proof.
  intros files. eexists _, _. split; [reflexivity|].
  intros [out Hout]. vm_compute in Hout. discriminate.
Qed.

(** ** Loading the stored records *)

Lemma coach_prepare_dict name d : coach_prepare name (JDict d) = Ok (coach_record name d).
Proof.
  unfold coach_prepare, coach_record. simpl.
  destruct (dict_get "assessment_start" (dict_set "filename" (JStr name) d)) eqn:E.
  - by rewrite bool_decide_eq_true_2.
  - rewrite bool_decide_eq_false_2; [done|]. by intros [? ?].
Qed.

Lemma coach_prepare_not_dict name j :
  (∀ d, j ≠ JDict d) → coach_prepare name j = Raise TypeError.
Proof. intros Hn. destruct j; try done. by destruct (Hn d). Qed.

Section load_properties.
Context {text : Type} `{FileSystem text}.

Lemma load_all_loop_ok : ∀ (entries : list (string * text)) acc,
  (∀ e, e ∈ entries → endswith e.1 ".json" = true → is_Some (json_load e.2)) →
  load_all_loop entries acc = Ok (acc ++ (valid_units entries).*2).
Proof.
  induction entries as [|[name c] entries IH]; intros acc Hall; simpl.
  { by rewrite app_nil_r. }
  destruct (endswith name ".json") eqn:E.
  - destruct (Hall (name, c) ltac:(by left) E) as [j Hj]. simpl in Hj.
    rewrite Hj. simpl. rewrite IH.
    + by rewrite <- app_assoc.
    + intros e He. apply Hall. by right.
  - apply IH. intros e He. apply Hall. by right.
Qed.

Lemma load_all_loop_corrupt : ∀ (entries : list (string * text)) acc name c,
  (name, c) ∈ entries → endswith name ".json" = true → json_load c = None →
  load_all_loop entries acc = Raise JSONDecodeError.
Proof.
  induction entries as [|[n' c'] entries IH]; intros acc name c Hin Hend Hbad.
  { by apply not_elem_of_nil in Hin. }
  simpl. apply elem_of_cons in Hin as [Heq|Hin].
  - injection Heq as <- <-. by rewrite Hend, Hbad.
  - destruct (endswith n' ".json"); [|by eapply IH].
    destruct (json_load c'); [by eapply IH|done].
Qed.

Lemma coach_load_loop_ok : ∀ (entries : list (string * text)) acc,
  (∀ e, e ∈ entries → endswith e.1 ".json" = true → read_error e.2 = None) →
  (∀ e j, e ∈ entries → endswith e.1 ".json" = true →
          json_load e.2 = Some j → ∃ d, j = JDict d) →
  coach_load_loop entries acc = Ok (acc ++ coach_records (valid_units entries)).
Proof.
  induction entries as [|[name c] entries IH]; intros acc Hread Hall; simpl.
  { by rewrite app_nil_r. }
  assert (Hrest : ∀ e j, e ∈ entries → endswith e.1 ".json" = true →
            json_load e.2 = Some j → ∃ d, j = JDict d).
  { intros e j He. apply Hall. by right. }
  assert (Hread' : ∀ e, e ∈ entries → endswith e.1 ".json" = true →
            read_error e.2 = None).
  { intros e He. apply Hread. by right. }
  unfold valid_units. simpl. destruct (endswith name ".json") eqn:E.
  - pose proof (Hread (name, c) ltac:(by left) E) as Hr. simpl in Hr. rewrite Hr.
    destruct (json_load c) as [j|] eqn:Hj; simpl.
    + destruct (Hall (name, c) j ltac:(by left) E Hj) as [d ->].
      rewrite coach_prepare_dict. simpl.
      fold (valid_units entries). rewrite (IH _ Hread' Hrest).
      unfold coach_records at 2. simpl. by rewrite <- app_assoc.
    + by apply IH.
  - by apply IH.
Qed.

Lemma valid_units_elem (entries : list (string * text)) name c j :
  (name, c) ∈ entries → endswith name ".json" = true → json_load c = Some j →
  (name, j) ∈ valid_units entries.
Proof.
  intros Hin Hend Hj. apply list_elem_of_omap. exists (name, c).
  split; [done|]. simpl. by rewrite Hend, Hj.
Qed.

Lemma coach_records_length (units : list (string * json)) :
  (∀ u, u ∈ units → ∃ d, u.2 = JDict d) →
  length (coach_records units) = length units.
Proof.
  induction units as [|u units IH]; intros Hd; [done|].
  unfold coach_records. simpl.
  destruct (Hd u ltac:(by left)) as [d ->]. simpl. f_equal.
  apply IH. intros u' Hu'. apply Hd. by right.
Qed.

Lemma valid_units_inv (entries : list (string * text)) u :
  u ∈ valid_units entries →
  ∃ c, (u.1, c) ∈ entries ∧ endswith u.1 ".json" = true ∧ json_load c = Some u.2.
Proof.
  intros Hu. apply list_elem_of_omap in Hu as ([name c] & Hin & Hf).
  simpl in Hf. destruct (endswith name ".json") eqn:E; [|done].
  destruct (json_load c) as [j|] eqn:Hj; [|done]. simpl in Hf.
  injection Hf as <-. by exists c.
Qed.

(** The loader of the coach view skips text that does not parse: with
    record units and unparseable text files side by side it returns one
    record per record unit, in listing order, and does not raise. *)
Lemma coach_load_skips_corrupt (files : gmap string text) :
  units_readable files →
  units_are_records files →
  ∃ assessments,
    coach_load (Some files) = Ok assessments ∧
    assessments = coach_records (valid_units (listdir files)) ∧
    length assessments = length (valid_units (listdir files)).
Proof.
  intros Hread Hrec. eexists. split; [|split; [reflexivity|]].
  - unfold coach_load. rewrite coach_load_loop_ok; [done| |].
    + intros [name c] Hin Hend. apply elem_of_map_to_list in Hin.
      by apply (Hread name c).
    + intros [name c] j Hin Hend Hj. apply elem_of_map_to_list in Hin.
      by apply (Hrec name c j).
  - apply coach_records_length. intros u Hu.
    apply valid_units_inv in Hu as (c & Hin & Hend & Hj).
    apply elem_of_map_to_list in Hin. by apply (Hrec _ _ _ Hin Hend Hj).
Qed.

(** C5 (where the code departs from it). [load_all_results] does not
    skip: as soon as one [.json] file of the directory fails to parse it
    raises [JSONDecodeError] and returns no record at all, however many
    well-formed units lie beside it. *)
Theorem load_all_results_raises_on_corrupt
    (files : gmap string text) (name : string) (c : text) :
  files !! name = Some c → endswith name ".json" = true → json_load c = None →
  load_all_results (Some files) = Raise JSONDecodeError.
Proof.
  intros Hin Hend Hbad. unfold load_all_results.
  apply (load_all_loop_corrupt _ _ name c); [|done|done].
  by apply elem_of_map_to_list.
Qed.

Lemma load_all_results_ok (files : gmap string text) :
  units_all_parse files →
  load_all_results (Some files) = Ok (valid_units (listdir files)).*2.
Proof.
  intros Hall. unfold load_all_results. rewrite load_all_loop_ok; [done|].
  intros [name c] Hin Hend. apply elem_of_map_to_list in Hin.
  by apply (Hall name c).
Qed.

End load_properties.

(** ** Saving and loading back *)

Lemma wf_json_dict (d : list (string * json)) :
  wf_json (JDict d) ↔ NoDup d.*1 ∧ Forall (λ kv, wf_json kv.2) d.
Proof.
  simpl. apply and_iff_compat_l.
  induction d as [|kv d IH]; [by split; [constructor|]|].
  rewrite Forall_cons, <- IH. done.
Qed.

Lemma wf_ratings_to_json (d : gmap string Z) : wf_json (ratings_to_json d).
Proof.
  apply wf_json_dict. split.
  - rewrite <- list_fmap_compose. exact (NoDup_fst_map_to_list d).
  - apply Forall_fmap, Forall_true. done.
Qed.

Lemma wf_scores_to_json (sc : gmap string (gmap string Z)) : wf_json (scores_to_json sc).
Proof.
  apply wf_json_dict. split.
  - rewrite <- list_fmap_compose. exact (NoDup_fst_map_to_list sc).
  - apply Forall_fmap, Forall_true. intros kv. apply wf_ratings_to_json.
Qed.

Lemma wf_assessment_data s now : wf_json (assessment_data s now).
Proof.
  apply wf_json_dict. split.
  - apply (bool_decide_unpack _). vm_compute. exact I.
  - repeat apply Forall_cons_2; try apply Forall_nil_2; simpl;
      try (by destruct (coachee_name s));
      try (by destruct (coachee_email s));
      try (by destruct (coachee_phone s));
      try (by destruct (assessment_start s));
      try done.
    + apply wf_scores_to_json.
    + apply wf_ratings_to_json.
Qed.

Lemma sum_json_ints (l : list (string * Z)) : ∀ acc,
  sum_json ((λ kv, (kv.1, JInt kv.2)) <$> l) acc
    = Ok (foldr (uncurry (λ (_ : string) v a, (a + v)%Z)) acc l).
Proof.
  induction l as [|[k v] l IH]; intros acc; simpl; [done|].
  rewrite IH. f_equal. clear IH. revert acc.
  induction l as [|[k' v'] l IHl]; intros acc; simpl; [done|].
  rewrite IHl. lia.
Qed.

Lemma json_sum_values_ratings (d : gmap string Z) :
  json_sum_values (ratings_to_json d) = Ok (sum_values d).
Proof.
  unfold json_sum_values, ratings_to_json. simpl. rewrite sum_json_ints.
  unfold sum_values. by rewrite map_fold_foldr.
Qed.

Lemma coach_totals_loop_scores (l : list (string * gmap string Z)) : ∀ acc,
  coach_totals_loop ((λ kv, (kv.1, ratings_to_json kv.2)) <$> l) acc
    = Ok (acc ++ ((λ kv, (kv.1, sum_values kv.2)) <$> l)).
Proof.
  induction l as [|[k d] l IH]; intros acc; simpl.
  - by rewrite app_nil_r.
  - rewrite json_sum_values_ratings. simpl. rewrite IH. by rewrite <- app_assoc.
Qed.

(** A ScoreMap is determined by its document. *)
Lemma ratings_to_json_inj (d1 d2 : gmap string Z) :
  ratings_to_json d1 = ratings_to_json d2 → d1 = d2.
Proof.
  unfold ratings_to_json. intros [= Heq]. apply map_to_list_inj.
  assert (Inj (=) (=) (λ kv : string * Z, (kv.1, JInt kv.2))) as Hinj.
  { intros [k1 v1] [k2 v2] [= -> ->]. done. }
  apply (inj (fmap _)) in Heq. by rewrite Heq.
Qed.

Lemma scores_to_json_inj (sc1 sc2 : gmap string (gmap string Z)) :
  scores_to_json sc1 = scores_to_json sc2 → sc1 = sc2.
Proof.
  unfold scores_to_json. intros [= Heq]. apply map_to_list_inj.
  assert (Inj (=) (=) (λ kv : string * gmap string Z, (kv.1, ratings_to_json kv.2)))
    as Hinj.
  { intros [k1 v1] [k2 v2] Hkv.
    pose proof (f_equal fst Hkv) as Hk. pose proof (f_equal snd Hkv) as Hr.
    simpl in Hk, Hr. by rewrite Hk, (ratings_to_json_inj _ _ Hr). }
  apply (inj (fmap _)) in Heq. by rewrite Heq.
Qed.

Lemma recomputed_totals (sc : gmap string (gmap string Z)) :
  let totals := (λ kv, (kv.1, sum_values kv.2)) <$> map_to_list sc in
  (list_to_map totals : gmap string Z) = dimension_scores_of sc ∧
  ∀ dk t, (dk, t) ∈ totals → calculate_dimension_score sc dk = Ok t.
Proof.
  intros totals. split.
  - unfold totals, dimension_scores_of.
    rewrite <- (list_to_map_to_list sc) at 2. by rewrite <- list_to_map_fmap.
  - intros dk t Hin. apply list_elem_of_fmap in Hin as ([k d] & [= -> ->] & Hin).
    apply elem_of_map_to_list in Hin. rewrite calculate_dimension_score_eq.
    simpl. by rewrite Hin.
Qed.

Section roundtrip.
Context {text : Type} `{JsonCodecLaws text} `{!FileSystem text}.

(** A save adds at most its own file, and that one parses, holds a
    dictionary and can be read. *)
Lemma saved_files s now now' (data : @directory text) :
  ∃ files, (save_assessment_data s now now' data).1 = Some files ∧
    ∀ name c, files !! name = Some c →
      ensure_data data !! name = Some c ∨
      (name = assessment_filename s now' ∧ c = json_dump (assessment_data s now)).
Proof.
  destruct (save_assessment_data_cases s now now' data) as [[_ ->]|[_ [e ->]]].
  - eexists. split; [done|]. intros name c Hc.
    apply lookup_insert_Some in Hc as [[<- <-]|[_ Hc]]; auto.
  - eexists. split; [done|]. auto.
Qed.

Lemma saved_units_parse s now now' (data : @directory text) :
  units_all_parse (ensure_data data) →
  ∀ files, (save_assessment_data s now now' data).1 = Some files →
           units_all_parse files.
Proof.
  intros Hall files Hsave name c Hc Hend.
  destruct (saved_files s now now' data) as (files0 & Hs0 & Hin).
  rewrite Hsave in Hs0. injection Hs0 as <-.
  destruct (Hin name c Hc) as [Hold|[-> ->]].
  - by apply (Hall name c).
  - rewrite json_load_dump; [done|apply wf_assessment_data].
Qed.

Lemma saved_units_records s now now' (data : @directory text) :
  units_are_records (ensure_data data) →
  ∀ files, (save_assessment_data s now now' data).1 = Some files →
           units_are_records files.
Proof.
  intros Hrec files Hsave name c j Hc Hend Hj.
  destruct (saved_files s now now' data) as (files0 & Hs0 & Hin).
  rewrite Hsave in Hs0. injection Hs0 as <-.
  destruct (Hin name c Hc) as [Hold|[-> ->]].
  - by apply (Hrec name c j).
  - rewrite json_load_dump in Hj by apply wf_assessment_data.
    injection Hj as <-. unfold assessment_data. eauto.
Qed.

Lemma saved_units_readable s now now' (data : @directory text) :
  units_readable (ensure_data data) →
  ∀ files, (save_assessment_data s now now' data).1 = Some files →
           units_readable files.
Proof.
  intros Hread files Hsave name c Hc Hend.
  destruct (saved_files s now now' data) as (files0 & Hs0 & Hin).
  rewrite Hsave in Hs0. injection Hs0 as <-.
  destruct (Hin name c Hc) as [Hold|[-> ->]].
  - by apply (Hread name c).
  - apply read_error_dump.
Qed.


(** An email with a path separator makes the save raise: nothing is
    written, the directory is left as it was (created if it was missing),
    so no loader finds the record.  With a name the file system takes, the
    exception is [FileNotFoundError], or [NotADirectoryError] when the
    first component of the name happens to be a file of the directory. *)
Lemma save_raises_on_separator
    (s : session_state) (now now' : datetime) (data : @directory text) (head : string) :
  path_head (fstr (coachee_email s)) = Some head →
  ∃ e, save_assessment_data s now now' data = (Some (ensure_data data), Raise e) ∧
    (name_error (assessment_filename s now') = None →
     e = match ensure_data data !! ("assessment_" +:+ head) with
         | Some _ => NotADirectoryError
         | None => FileNotFoundError
         end).
Proof.
  intros Hhead.
  assert (Hp : path_head (assessment_filename s now') = Some ("assessment_" +:+ head)).
  { by rewrite path_head_assessment_filename, Hhead. }
  unfold save_assessment_data, open_write. rewrite Hp.
  destruct (name_error (assessment_filename s now')) as [e|].
  - exists e. by split.
  - destruct (ensure_data data !! ("assessment_" +:+ head)); eexists; by split.
Qed.

End roundtrip.

(** A respondent who types ["n/a"] for the email. *)
Lemma save_load_roundtrip_fails :
  let s := (coachee_info_form true "Jane Doe" "n/a" "" sample_time
              (initial_session_state sample_time)).1 in
  let saved := save_assessment_data (text := option json) s sample_time sample_time None in
  page s = "assessment" ∧
  saved = (Some ∅, Raise FileNotFoundError) ∧
  load_all_results saved.1 = Ok [] ∧
  coach_load saved.1 = Ok [].
Proof. intros s saved. split_and!; reflexivity. Qed.


Lemma load_all_results_raises_on_corrupt_witness :
  sample_directory !! "assessment_half_written.json" = Some None ∧
  endswith "assessment_half_written.json" ".json" = true ∧
  json_load (None : option json) = None ∧
  load_all_results (Some sample_directory) = Raise JSONDecodeError.
Proof.
  assert (H1 : sample_directory !! "assessment_half_written.json" = Some None)
    by apply lookup_insert_eq.
  split_and!; [exact H1|reflexivity|reflexivity|].
  exact (load_all_results_raises_on_corrupt sample_directory
           "assessment_half_written.json" None H1 eq_refl eq_refl).
Defined.

(** On the same directory the coach view's loader returns the one saved
    record. *)
Lemma coach_load_sample_directory :
  ∃ a, coach_load (Some sample_directory) = Ok [a] ∧
       json_getitem a "filename"
         = Ok (JStr "assessment_jane@example.com_20240517_093012.json") ∧
       json_getitem a "coachee_name" = Ok (JStr "Jane Doe") ∧
       coach_dimension_scores a
         = Ok ((λ kv, (kv.1, sum_values kv.2)) <$> map_to_list (scores sample_session)).
Proof.
  eexists. split; [vm_compute; reflexivity|]. split_and!; reflexivity.
Qed.

(** The end-to-end totals of that session: six ratings of 1 per dimension. *)
Lemma sample_session_totals :
  calculate_dimension_score (scores sample_session) "purpose_vision" = Ok 6%Z ∧
  coach_summary_level 6 = low.
Proof. split; reflexivity. Qed.

(** ** What holds in every session *)

Lemma wizard_questions_eq r s :
  wizard_questions r s = generate_randomized_questions r s.
Proof. reflexivity. Qed.

Section session_invariant.
Context {text : Type} `{FileSystem text}.

Lemma show_wizard_page_ok r complete now now' s (data : @directory text) :
  session_ok s →
  session_ok (show_wizard_page r complete now now' s data).1.1 ∧
  complete_scores (scores (show_wizard_page r complete now now' s data).1.1).
Proof.
  intros (Hcat & Hw & Hseq & _).
  destruct (show_wizard_page_shape r complete now now' s data Hseq)
    as (qs & s1 & Hp & Hs1 & ->).
  pose proof (render_questions_complete (widget_index s) qs (scores s) Hw Hp Hcat)
    as Hc.
  assert (Hw1 : widget_index s1 = widget_index s) by (by destruct Hs1 as [->| ->]).
  assert (Hq1 : ∀ qs', randomized_questions s1 = Some qs' → qs' ≡ₚ all_questions).
  { destruct Hs1 as [->| ->]; [exact Hseq|]. by intros qs' [= <-]. }
  cbv zeta.
  destruct complete;
    [destruct (save_assessment_data_cases
                 (set_scores (render_questions (widget_index s) qs (scores s)) s1)
                 now now' data) as [[_ ->]|[_ [e ->]]]|];
    cbn [fst snd scores set_page set_scores];
    (split; [|exact Hc]);
    (split_and!; [exact (proj1 Hc)|by rewrite <- Hw1 in Hw|exact Hq1|by intros _]).
Qed.

(** Every session the respondent's flow can reach keeps the ScoreMap on
    catalog keys, the widgets on their options and the stored sequence a
    permutation of the catalog; on the thank-you page the ScoreMap is
    complete. *)
Lemma reachable_session_ok (s : session_state) :
  reachable (text := text) s → session_ok s.
Proof.
  induction 1 as [now|s w _ IH Hw|coach_view inp s s' data data' v sig _ IH Hc Hm
                 |inp s data _ IH Hc Hp].
  - by split_and!.
  - destruct IH as (Hcat & _ & Hseq & Hty). by split_and!.
  - unfold main in Hm. rewrite Hc in Hm.
    repeat case_decide.
    + destruct (coachee_info_form _ _ _ _ _ s) as [s1 sig1] eqn:E.
      injection Hm as <- <- <- <-.
      unfold coachee_info_form in E. destruct IH as (Hcat & Hw & Hseq & Hty).
      destruct (form_submitted inp); [destruct (_ && _)|]; injection E as <- <-;
        split_and!; try done; simpl; congruence.
    + unfold py_call in Hm. simpl in Hm.
      pose proof (show_wizard_page_ok (rng inp) (complete_clicked inp)
                    (now_completion inp) (now_filename inp) s data IH) as [Hok _].
      destruct (show_wizard_page _ _ _ _ s data) as [[s1 d1] [sig1|e]];
        simpl in Hm; [|done].
      injection Hm as <- <- <- <-. exact Hok.
    + destruct (thank_you_page s); [|done]. simpl in Hm.
      by injection Hm as <- <- <- <-.
    + done.
    + by injection Hm as <- <- <- <-.
  - by apply show_wizard_page_ok.
Qed.

(** A completed assessment: once the session shows the thank-you page,
    every catalog pair has a rating between 1 and 10 and every dimension
    total lies between 6 and 60. *)
Lemma completed_assessment_totals (s : session_state) (dk : string) :
  reachable (text := text) s → page s = "thank_you" → dk ∈ dimension_keys →
  complete_scores (scores s) ∧
  ∃ t, calculate_dimension_score (scores s) dk = Ok t ∧ (6 ≤ t ≤ 60)%Z.
Proof.
  intros Hr Hp Hdk. destruct (reachable_session_ok s Hr) as (_ & _ & _ & Hty).
  split; [by apply Hty|]. apply complete_scores_totals; [by apply Hty|done].
Qed.

End session_invariant.

(** ** An assessment end to end *)

(** Ten for every "Purpose & Vision" statement and the untouched default
    elsewhere: that dimension totals 60 and is high, the others total 6 and
    are low. *)
Example purpose_vision_all_tens :
  let questions := (shuffle (rng sample_input) all_questions).1 in
  let sc := render_questions sample_widgets questions ∅ in
  calculate_dimension_score sc "purpose_vision" = Ok 60%Z ∧
  coach_summary_level 60 = high ∧
  calculate_dimension_score sc "strategic_influence" = Ok 6%Z ∧
  coach_summary_level 6 = low.
Proof. vm_compute. done. Qed.

(* ================================================================== *)
(** * Part III.  Further properties of the code                        *)
(* ================================================================== *)

(** ** The coach gate *)

Lemma is_coach_spec (qp : gmap string string) :
  is_coach qp = true ↔ qp !! "coach" = Some "gruntled_coach_access".
Proof.
  unfold is_coach. rewrite andb_true_iff, !bool_decide_eq_true. split.
  - by intros [_ ?].
  - intros Hq. split; [|done]. apply elem_of_dom. by rewrite Hq.
Qed.

Section gate.
Context {text : Type} `{FileSystem text}.

(** The coach view is shown exactly when the [coach] query parameter is
    the access string; with any other value, or none, what the run does
    does not depend on the coach view at all, whatever the session holds. *)
Theorem coach_token_gate
    (coach_view coach_view' : result outcome) (inp : run_input)
    (s : session_state) (data : @directory text) :
  (query_params inp !! "coach" = Some "gruntled_coach_access" →
   main coach_view inp s data = coach_view) ∧
  (query_params inp !! "coach" ≠ Some "gruntled_coach_access" →
   main coach_view inp s data = main coach_view' inp s data).
Proof.
  split; intros Hq; unfold main.
  - by rewrite (proj2 (is_coach_spec _) Hq).
  - destruct (is_coach (query_params inp)) eqn:E; [|done].
    by apply is_coach_spec in E.
Qed.

End gate.

(** ** The current question *)

(** With the sequence the session holds (or the one generated on this
    call), [get_current_question] returns the entry at the session's index
    while the index is below 48, and [None] from 48 on; the index itself is
    not moved. *)
Theorem get_current_question_spec (r : random_state) (s : session_state) :
  (∀ qs, randomized_questions s = Some qs → qs ≡ₚ all_questions) →
  ∃ qs,
    randomized_questions (get_current_question r s).1.2 = Some qs ∧
    qs ≡ₚ all_questions ∧
    current_question (get_current_question r s).1.2 = current_question s ∧
    (get_current_question r s).1.1 = qs !! current_question s ∧
    ((get_current_question r s).1.1 = None ↔ 48 ≤ current_question s).
Proof.
  intros Hseq. unfold get_current_question.
  rewrite <- wizard_questions_eq.
  destruct (wizard_questions_spec r s Hseq) as (qs & r' & Hp & [E|E]); rewrite E;
    exists qs; simpl.
  - destruct (randomized_questions s) as [qs0|] eqn:Hs.
    + unfold wizard_questions in E. rewrite Hs in E. injection E as <- _.
      assert (Hlen : length qs0 = 48) by (by rewrite Hp).
      split_and!; try done.
      * case_decide as Hlt; [done|]. symmetry. apply lookup_ge_None. lia.
      * case_decide as Hlt.
        -- split; [|lia]. intros Hn. apply lookup_ge_None in Hn. lia.
        -- split; [lia|done].
    + unfold wizard_questions in E. rewrite Hs in E.
      destruct (shuffle r all_questions) as [qs1 r1].
      injection E as _ Hbad _.
      apply (f_equal randomized_questions) in Hbad. simpl in Hbad. by rewrite Hs in Hbad.
  - assert (Hlen : length qs = 48) by (by rewrite Hp).
    split_and!; try done.
    + case_decide as Hlt; [done|]. symmetry. apply lookup_ge_None. lia.
    + case_decide as Hlt.
      * split; [|lia]. intros Hn. apply lookup_ge_None in Hn. lia.
      * split; [lia|done].
Qed.

Lemma get_current_question_spec_witness :
  let s := initial_session_state sample_time in
  (∀ qs, randomized_questions s = Some qs → qs ≡ₚ all_questions) ∧
  ∃ q, (get_current_question (rng sample_input) s).1.1 = Some q.
Proof.
  intros s.
  assert (Hs : ∀ qs, randomized_questions s = Some qs → qs ≡ₚ all_questions)
    by (intros qs Hqs; done).
  split; [exact Hs|].
  destruct (get_current_question_spec (rng sample_input) s Hs)
    as (qs & _ & _ & _ & _ & Hnone).
  destruct ((get_current_question (rng sample_input) s).1.1) as [q|]; [by exists q|].
  exfalso. pose proof (proj1 Hnone eq_refl) as Hge. simpl in Hge. lia.
Defined.

(** ** Timestamps in file names *)

Lemma string_app_inj_head : ∀ (a b x y : string),
  String.length a = String.length b → a +:+ x = b +:+ y → a = b ∧ x = y.
Proof.
  induction a as [|c a IH]; intros [|c' b] x y Hlen Heq;
    rewrite ?string_app_nil, ?string_app_cons in Heq; simplify_eq/=; [done|].
  destruct (IH b x y ltac:(done) ltac:(done)) as [-> ->]. done.
Qed.

Lemma digit_inj n m : digit n = digit m → n mod 10 = m mod 10.
Proof.
  unfold digit. intros Hd. apply (f_equal nat_of_ascii) in Hd.
  pose proof (Nat.mod_upper_bound n 10 ltac:(lia)).
  pose proof (Nat.mod_upper_bound m 10 ltac:(lia)).
  rewrite !nat_ascii_embedding in Hd by lia. lia.
Qed.

(** Within its width, a number is determined by its digits. *)
Lemma zfill_inj w : ∀ n m, n < 10 ^ w → m < 10 ^ w → zfill w n = zfill w m → n = m.
Proof.
  induction w as [|w IH]; intros n m Hn Hm Heq.
  { simpl in Hn, Hm. lia. }
  cbn [zfill] in Heq.
  apply string_app_inj_head in Heq as [Hhi Hlo]; [|by rewrite !zfill_length].
  injection Hlo as Hlo. apply digit_inj in Hlo.
  rewrite Nat.pow_succ_r' in Hn, Hm.
  assert (n / 10 = m / 10) as Hdiv.
  { apply IH; [| |done]; apply Nat.Div0.div_lt_upper_bound; lia. }
  rewrite (Nat.div_mod_eq n 10), (Nat.div_mod_eq m 10). lia.
Qed.

Lemma strftime_compact_same_second t1 t2 :
  same_second t1 t2 → strftime_compact t1 = strftime_compact t2.
Proof.
  intros (Hy & Hmo & Hd & Hh & Hmi & Hs). unfold strftime_compact.
  by rewrite Hy, Hmo, Hd, Hh, Hmi, Hs.
Qed.

Lemma strftime_compact_inj t1 t2 :
  printable t1 → printable t2 →
  strftime_compact t1 = strftime_compact t2 → same_second t1 t2.
Proof.
  intros (Hy1 & Hmo1 & Hd1 & Hh1 & Hmi1 & Hs1) (Hy2 & Hmo2 & Hd2 & Hh2 & Hmi2 & Hs2).
  unfold strftime_compact. intros Heq.
  apply string_app_inj_head in Heq as [Ey Heq]; [|by rewrite !zfill_length].
  apply string_app_inj_head in Heq as [Emo Heq]; [|by rewrite !zfill_length].
  apply string_app_inj_head in Heq as [Ed Heq]; [|by rewrite !zfill_length].
  apply string_app_inj_head in Heq as [_ Heq]; [|done].
  apply string_app_inj_head in Heq as [Eh Heq]; [|by rewrite !zfill_length].
  apply string_app_inj_head in Heq as [Emi Es]; [|by rewrite !zfill_length].
  repeat split; by eapply zfill_inj.
Qed.

Section naming_more.
Context {text : Type} `{FileSystem text}.

(** The file name of [save_assessment_data] identifies the email and the
    second of the clock reading, and nothing more: two saves get the same
    name exactly when the emails print alike and the clock readings fall in
    the same second. *)
Theorem assessment_filename_eq_iff (s1 s2 : session_state) (t1 t2 : datetime) :
  printable t1 → printable t2 →
  (assessment_filename s1 t1 = assessment_filename s2 t2 ↔
   fstr (coachee_email s1) = fstr (coachee_email s2) ∧ same_second t1 t2).
Proof.
  intros Hp1 Hp2. split.
  - intros Heq. apply assessment_filename_inj in Heq as [He Ht].
    split; [done|]. by apply strftime_compact_inj.
  - intros [He Ht]. unfold assessment_filename.
    by rewrite He, (strftime_compact_same_second _ _ Ht).
Qed.

(** A respondent who completes twice within one second keeps one file:
    the second save replaces the first.  The second save leaves the
    directory, and returns or raises, as if the first had not been made. *)
Theorem save_assessment_data_same_second
    (s1 s2 : session_state) (t1 t1' t2 t2' : datetime) (data : @directory text) :
  coachee_email s1 = coachee_email s2 → same_second t1' t2' →
  save_assessment_data s2 t2 t2' (save_assessment_data s1 t1 t1' data).1
    = save_assessment_data s2 t2 t2' data.
Proof.
  intros He Ht.
  assert (Hname : assessment_filename s1 t1' = assessment_filename s2 t2').
  { unfold assessment_filename.
    by rewrite He, (strftime_compact_same_second _ _ Ht). }
  destruct (save_assessment_data_cases s1 t1 t1' data) as [[Hst ->]|[_ [e ->]]];
    [|reflexivity].
  rewrite Hname in Hst. unfold save_assessment_data. simpl.
  rewrite !(open_write_storable _ _ _ Hst).
  by rewrite Hname, insert_insert_eq.
Qed.

(** [save_assessment_results] names the file by the second alone: of two
    saves within one second, whoever made them, only the later is kept. *)
Theorem save_assessment_results_collide
    (sc1 sc2 : gmap string (gmap string Z)) (t1 t2 : datetime) (data : @directory text) :
  same_second t1 t2 →
  save_assessment_results sc2 t2 (save_assessment_results sc1 t1 data)
    = save_assessment_results sc2 t2 data.
Proof.
  intros Ht. unfold save_assessment_results. simpl.
  rewrite (strftime_compact_same_second _ _ Ht). by rewrite insert_insert_eq.
Qed.

End naming_more.

Lemma sample_time_printable : printable sample_time.
Proof. unfold printable, sample_time. simpl. lia. Qed.

Lemma sample_time_same_second : same_second sample_time sample_time.
Proof. by repeat split. Qed.

Lemma assessment_filename_eq_iff_witness :
  printable sample_time ∧
  (assessment_filename sample_session sample_time
     = assessment_filename sample_session sample_time ↔
   fstr (coachee_email sample_session) = fstr (coachee_email sample_session) ∧
   same_second sample_time sample_time).
Proof.
  split; [exact sample_time_printable|].
  exact (assessment_filename_eq_iff sample_session sample_session
           sample_time sample_time sample_time_printable sample_time_printable).
Defined.

Lemma save_assessment_data_same_second_witness :
  coachee_email sample_session = coachee_email sample_session ∧
  same_second sample_time sample_time ∧
  save_assessment_data (text := option json) sample_session sample_time sample_time
    (save_assessment_data sample_session sample_time sample_time None).1
  = save_assessment_data sample_session sample_time sample_time None.
Proof.
  split_and!; [reflexivity|exact sample_time_same_second|].
  exact (save_assessment_data_same_second (text := option json)
           sample_session sample_session sample_time sample_time
           sample_time sample_time None eq_refl sample_time_same_second).
Defined.

Lemma save_assessment_results_collide_witness :
  same_second sample_time sample_time ∧
  save_assessment_results (text := option json) (scores sample_session) sample_time
    (save_assessment_results ∅ sample_time None)
  = save_assessment_results (scores sample_session) sample_time None.
Proof.
  split; [exact sample_time_same_second|].
  exact (save_assessment_results_collide (text := option json)
           ∅ (scores sample_session) sample_time sample_time None
           sample_time_same_second).
Defined.

(** ** Loading: when it succeeds and what it returns *)

Lemma length_omap_le {A B} (f : A → option B) (l : list A) :
  length (omap f l) ≤ length l.
Proof.
  induction l as [|x l IH]; [done|]. csimpl. destruct (f x); simpl; lia.
Qed.

Section load_more.
Context {text : Type} `{FileSystem text}.

Lemma valid_units_iff (files : gmap string text) name j :
  (name, j) ∈ valid_units (listdir files) ↔
  ∃ c, files !! name = Some c ∧ endswith name ".json" = true ∧ json_load c = Some j.
Proof.
  split.
  - intros Hu. apply valid_units_inv in Hu as (c & Hin & Hend & Hj).
    exists c. split; [by apply elem_of_map_to_list|done].
  - intros (c & Hc & Hend & Hj). apply (valid_units_elem _ _ c); [|done|done].
    by apply elem_of_map_to_list.
Qed.

(** [load_all_results] succeeds exactly when every [.json] file of the
    directory parses.  It then returns the documents of those files and of
    no other file, one per file. *)
Theorem load_all_results_spec (files : gmap string text) :
  ((∃ results, load_all_results (Some files) = Ok results) ↔ units_all_parse files) ∧
  ∀ results, load_all_results (Some files) = Ok results →
    (∀ j, j ∈ results ↔
       ∃ name c, files !! name = Some c ∧ endswith name ".json" = true ∧
                 json_load c = Some j) ∧
    length results ≤ size files.
Proof.
  assert (Hfwd : ∀ results, load_all_results (Some files) = Ok results →
                            units_all_parse files).
  { intros results Hok name c Hc Hend.
    destruct (json_load c) as [j|] eqn:Hj; [done|].
    unfold load_all_results in Hok.
    rewrite (load_all_loop_corrupt _ _ name c) in Hok; [done| |done|done].
    by apply elem_of_map_to_list. }
  split.
  - split; [intros [results Hok]; by eapply Hfwd|].
    intros Hall. eexists. by apply load_all_results_ok.
  - intros results Hok. pose proof (Hfwd _ Hok) as Hall.
    rewrite (load_all_results_ok files Hall) in Hok. injection Hok as <-. split.
    + intros j. rewrite list_elem_of_fmap. split.
      * intros ([name j'] & -> & Hu). apply valid_units_iff in Hu as (c & ?).
        by exists name, c.
      * intros (name & c & Hc & Hend & Hj). exists (name, j). split; [done|].
        apply valid_units_iff. by exists c.
    + rewrite length_fmap. unfold valid_units.
      rewrite <- (length_map_to_list files). apply length_omap_le.
Qed.

Lemma coach_prepare_raises name j e : coach_prepare name j = Raise e → e = TypeError.
Proof.
  destruct j as [| | | |d]; try (by intros [= <-]).
  by rewrite coach_prepare_dict.
Qed.

(** What the loop raises is the read error of a file or the [TypeError]
    of a document that is no dictionary. *)
Lemma coach_load_loop_raise : ∀ (entries : list (string * text)) acc e,
  coach_load_loop entries acc = Raise e →
  (∃ name c, (name, c) ∈ entries ∧ endswith name ".json" = true ∧
             read_error c = Some e) ∨
  (e = TypeError ∧
   ∃ name c j, (name, c) ∈ entries ∧ endswith name ".json" = true ∧
               read_error c = None ∧ json_load c = Some j ∧ ∀ d, j ≠ JDict d).
Proof.
  induction entries as [|[n' c'] entries IH]; intros acc e Hr; [done|].
  assert (Hrest : ∀ acc', coach_load_loop entries acc' = Raise e →
    (∃ name c, (name, c) ∈ (n', c') :: entries ∧ endswith name ".json" = true ∧
               read_error c = Some e) ∨
    (e = TypeError ∧
     ∃ name c j, (name, c) ∈ (n', c') :: entries ∧ endswith name ".json" = true ∧
                 read_error c = None ∧ json_load c = Some j ∧ ∀ d, j ≠ JDict d)).
  { intros acc' Hr'. destruct (IH acc' e Hr') as [(name & c & Hin & ?)|[-> Hx]].
    - left. exists name, c. split; [by right|done].
    - right. split; [done|]. destruct Hx as (name & c & j & Hin & ?).
      exists name, c, j. split; [by right|done]. }
  simpl in Hr. destruct (endswith n' ".json") eqn:Hend; [|by eapply Hrest].
  destruct (read_error c') as [e'|] eqn:Hre.
  { injection Hr as <-. left. exists n', c'. split; [by left|done]. }
  destruct (json_load c') as [j'|] eqn:Hj; [|by eapply Hrest].
  destruct j' as [| | | |d'];
    try (injection Hr as <-; right; split; [done|];
         eexists n', c', _; split; [by left|]; split_and!; [done|done|exact Hj|done]).
  rewrite coach_prepare_dict in Hr. simpl in Hr. by eapply Hrest.
Qed.

Lemma coach_load_loop_unreadable : ∀ (entries : list (string * text)) acc name c e,
  (name, c) ∈ entries → endswith name ".json" = true → read_error c = Some e →
  ∃ e', coach_load_loop entries acc = Raise e'.
Proof.
  induction entries as [|[n' c'] entries IH]; intros acc name c e Hin Hend Hre.
  { by apply not_elem_of_nil in Hin. }
  simpl. apply elem_of_cons in Hin as [Heq|Hin].
  - injection Heq as <- <-. rewrite Hend, Hre. eauto.
  - destruct (endswith n' ".json"); [|by eapply IH].
    destruct (read_error c'); [by eauto|].
    destruct (json_load c') as [j'|]; [|by eapply IH].
    destruct (coach_prepare n' j'); simpl; [by eapply IH|by eauto].
Qed.

Lemma coach_load_loop_not_dict : ∀ (entries : list (string * text)) acc name c j,
  (name, c) ∈ entries → endswith name ".json" = true →
  json_load c = Some j → (∀ d, j ≠ JDict d) →
  ∃ e, coach_load_loop entries acc = Raise e.
Proof.
  induction entries as [|[n' c'] entries IH]; intros acc name c j Hin Hend Hj Hnd.
  { by apply not_elem_of_nil in Hin. }
  simpl. apply elem_of_cons in Hin as [Heq|Hin].
  - injection Heq as <- <-. rewrite Hend. destruct (read_error c); [by eauto|].
    rewrite Hj, (coach_prepare_not_dict name j Hnd). by eauto.
  - destruct (endswith n' ".json"); [|by eapply IH].
    destruct (read_error c'); [by eauto|].
    destruct (json_load c') as [j'|]; [|by eapply IH].
    destruct (coach_prepare n' j'); simpl; [by eapply IH|by eauto].
Qed.

Lemma coach_load_non_record
    (files : gmap string text) (name : string) (c : text) (j : json) :
  files !! name = Some c → endswith name ".json" = true →
  json_load c = Some j → (∀ d, j ≠ JDict d) →
  (∃ e, coach_load (Some files) = Raise e) ∧
  (units_readable files → coach_load (Some files) = Raise TypeError).
Proof.
  intros Hc Hend Hj Hnd.
  assert (Hraise : ∃ e, coach_load (Some files) = Raise e).
  { unfold coach_load. apply (coach_load_loop_not_dict _ _ name c j); try done.
    by apply elem_of_map_to_list. }
  split; [exact Hraise|]. intros Hread. destruct Hraise as [e He]. rewrite He.
  unfold coach_load in He.
  apply coach_load_loop_raise in He as [(n' & c' & Hin & Hend' & Hre)|[-> _]];
    [|done].
  apply elem_of_map_to_list in Hin. by rewrite (Hread n' c' Hin Hend') in Hre.
Qed.


Lemma coach_load_characterised (files : gmap string text) :
  ((∃ assessments, coach_load (Some files) = Ok assessments) ↔
   units_readable files ∧ units_are_records files) ∧
  (∀ assessments, coach_load (Some files) = Ok assessments →
    ∀ a, a ∈ assessments ↔
      ∃ name c d, files !! name = Some c ∧ endswith name ".json" = true ∧
                  json_load c = Some (JDict d) ∧ coach_prepare name (JDict d) = Ok a) ∧
  (∀ e, coach_load (Some files) = Raise e →
     e = TypeError ∨
     ∃ name c, files !! name = Some c ∧ endswith name ".json" = true ∧
               read_error c = Some e).
Proof.
  assert (Hfwd : ∀ l, coach_load (Some files) = Ok l →
                      units_readable files ∧ units_are_records files).
  { intros l Hok. split.
    - intros name c Hc Hend. destruct (read_error c) as [e|] eqn:Hre; [|done].
      destruct (coach_load_loop_unreadable (listdir files) [] name c e) as [e' He'];
        [by apply elem_of_map_to_list|done|done|].
      unfold coach_load in Hok. by rewrite He' in Hok.
    - intros name c j Hc Hend Hj.
      destruct j as [| | | |d]; [..|by eauto];
        (destruct (coach_load_non_record files name c _ Hc Hend Hj) as [[e He] _];
         [done|by rewrite He in Hok]). }
  split_and!.
  - split; [intros [l Hok]; by eapply Hfwd|].
    intros [Hread Hrec].
    destruct (coach_load_skips_corrupt files Hread Hrec) as (l & Hl & _).
    by exists l.
  - intros assessments Hok a. destruct (Hfwd _ Hok) as [Hread Hrec].
    destruct (coach_load_skips_corrupt files Hread Hrec) as (l & Hl & Heq & _).
    rewrite Hl in Hok. injection Hok as <-. subst l.
    unfold coach_records. rewrite list_elem_of_omap. split.
    + intros ([name j] & Hu & Hf). simpl in Hf.
      apply valid_units_iff in Hu as (c & Hc & Hend & Hj).
      destruct j as [| | | |d]; try done. injection Hf as <-.
      exists name, c, d. by rewrite coach_prepare_dict.
    + intros (name & c & d & Hc & Hend & Hj & Hprep).
      rewrite coach_prepare_dict in Hprep. injection Hprep as <-.
      exists (name, JDict d). split; [|done]. apply valid_units_iff. by exists c.
  - intros e He. unfold coach_load in He.
    apply coach_load_loop_raise in He as [(name & c & Hin & Hend & Hre)|[-> _]];
      [|by left].
    right. exists name, c. split; [by apply elem_of_map_to_list|done].
Qed.


(** A [.json] file that cannot be read makes the loader of the coach
    view raise: [open] stands outside the [try], and a decoding error is
    not a [JSONDecodeError]. *)
Lemma coach_load_unreadable
    (files : gmap string text) (name : string) (c : text) (e : exn) :
  files !! name = Some c → endswith name ".json" = true → read_error c = Some e →
  ∃ e', coach_load (Some files) = Raise e'.
Proof.
  intros Hc Hend Hre. unfold coach_load.
  apply (coach_load_loop_unreadable _ _ name c e); try done.
  by apply elem_of_map_to_list.
Qed.

End load_more.

(** One file of undecodable bytes beside a saved record: the coach view
    raises [UnicodeDecodeError] and shows nothing. *)
Lemma coach_load_undecodable_file :
  let files : gmap string stored :=
    {[ "assessment_a@b.c_20240517_093012.json" := Document (JDict []);
       "assessment_x@y.z_20240517_093012.json" := Undecodable ]} in
  coach_load (Some files) = Raise UnicodeDecodeError.
Proof. reflexivity. Qed.


(** ** What the coach view attaches to a record *)

Lemma dict_get_set_eq k v d : dict_get k (dict_set k v d) = Some v.
Proof.
  induction d as [|[k' v'] d IH]; simpl.
  - by rewrite decide_True.
  - destruct (decide (k = k')) as [->|Hne]; simpl.
    + by rewrite decide_True.
    + by rewrite decide_False.
Qed.

Lemma dict_get_set_ne k k' v d : k ≠ k' → dict_get k (dict_set k' v d) = dict_get k d.
Proof.
  intros Hne. induction d as [|[k0 v0] d IH]; simpl.
  - by rewrite decide_False.
  - destruct (decide (k' = k0)) as [->|Hne']; simpl.
    + by rewrite !decide_False.
    + destruct (decide (k = k0)); [done|exact IH].
Qed.

Lemma coach_record_fields (name : string) (d : list (string * json)) :
  ∃ a, coach_prepare name (JDict d) = Ok a ∧
    json_getitem a "filename" = Ok (JStr name) ∧
    json_getitem a "assessment_start"
      = Ok (default (JStr "1970-01-01T00:00:00") (dict_get "assessment_start" d)) ∧
    ∀ k, k ≠ "filename" → k ≠ "assessment_start" →
         json_getitem a k = json_getitem (JDict d) k.
Proof.
  exists (coach_record name d). split; [apply coach_prepare_dict|].
  unfold coach_record, json_getitem.
  rewrite (dict_get_set_ne "assessment_start" "filename") by done.
  destruct (dict_get "assessment_start" d) as [v|] eqn:E; simpl.
  - split_and!.
    + by rewrite dict_get_set_eq.
    + by rewrite (dict_get_set_ne "assessment_start" "filename"), E.
    + intros k Hk _. by rewrite dict_get_set_ne.
  - split_and!.
    + by rewrite (dict_get_set_ne "filename" "assessment_start"), dict_get_set_eq.
    + by rewrite dict_get_set_eq.
    + intros k Hk Hk'. by rewrite !dict_get_set_ne.
Qed.

(** A stored dictionary always loads: the record gets the name of its file
    under ['filename'], keeps its own ['assessment_start'] or gets
    ['1970-01-01T00:00:00'] when it has none, and every other field reads
    as it was stored. *)
Theorem coach_prepare_fields (name : string) (d : list (string * json)) :
  ∃ a, coach_prepare name (JDict d) = Ok a ∧
    json_getitem a "filename" = Ok (JStr name) ∧
    json_getitem a "assessment_start"
      = Ok (default (JStr "1970-01-01T00:00:00") (dict_get "assessment_start" d)) ∧
    ∀ k, k ≠ "filename" → k ≠ "assessment_start" →
         json_getitem a k = json_getitem (JDict d) k.
Proof. apply coach_record_fields. Qed.

(** ** Deleting what was listed *)

Section delete_more.
Context {text : Type} `{FileSystem text}.

(** Every record the coach view has loaded carries the name of a file
    that is in the directory: deleting a listed record removes that file
    and cannot raise. *)
Theorem listed_record_deletable
    (files : gmap string text) (assessments : list json) (a : json) :
  coach_load (Some files) = Ok assessments → a ∈ assessments →
  ∃ name, json_getitem a "filename" = Ok (JStr name) ∧
          is_Some (files !! name) ∧
          confirm_yes_delete name files
            = Ok (delete name files, "Assessment deleted successfully!").
Proof.
  intros Hload Hin.
  apply (proj1 (proj2 (coach_load_characterised files)) assessments Hload) in Hin
    as (name & c & d & Hc & _ & _ & Hprep).
  destruct (coach_record_fields name d) as (a' & Hprep' & Hname & _).
  rewrite Hprep in Hprep'. injection Hprep' as <-.
  exists name. split_and!; [done|by rewrite Hc|].
  unfold confirm_yes_delete, os_remove. by rewrite Hc.
Qed.


End delete_more.

Section controls.
Context {text : Type}.

(** Deleting takes two runs.  A run removes a file only if the record's
    confirmation flag was already set when the run began and the button
    pressed is "Yes, Delete" of that record; it then removes that file
    alone.  Pressing "Delete Assessment" only sets the flag, pressing
    "No, Cancel" only clears it. *)
Theorem delete_controls_two_step
    (clicked : option string) (filename : string)
    (s s' : session_state) (files files' : gmap string text) (sig : signal) :
  delete_controls clicked filename s files = Ok (s', files', sig) →
  (files' ≠ files →
     confirm_delete s !! filename = Some true ∧
     clicked = Some ("confirm_yes_" +:+ filename) ∧
     files' = delete filename files) ∧
  (clicked = Some ("delete_" +:+ filename) →
     files' = files ∧ confirm_delete s' !! filename = Some true) ∧
  (clicked = Some ("confirm_no_" +:+ filename) →
     files' = files ∧
     (confirm_delete s !! filename = Some true →
      confirm_delete s' !! filename = Some false)).
Proof.
  unfold delete_controls. intros Hrun.
  destruct (decide (clicked = Some ("delete_" +:+ filename))) as [Hd|Hd];
    destruct (decide (clicked = Some ("confirm_yes_" +:+ filename))) as [Hy|Hy];
    destruct (decide (clicked = Some ("confirm_no_" +:+ filename))) as [Hn|Hn];
    try (exfalso; rewrite Hd in Hy; injection Hy as Hy; discriminate Hy);
    try (exfalso; rewrite Hd in Hn; injection Hn as Hn; discriminate Hn);
    try (exfalso; rewrite Hy in Hn; injection Hn as Hn; discriminate Hn).
  - cbn [confirm_delete set_confirm_delete] in Hrun.
    rewrite lookup_insert_eq in Hrun. simpl in Hrun.
    injection Hrun as <- <- <-. split_and!; [done| |done].
    intros _. split; [done|]. simpl. apply lookup_insert_eq.
  - destruct (confirm_delete s !! filename) as [[|]|] eqn:Hflag; simpl in Hrun.
    + unfold confirm_yes_delete, os_remove in Hrun.
      destruct (files !! filename); simpl in Hrun; [|done].
      injection Hrun as <- <- <-. by split_and!.
    + injection Hrun as <- <- <-. by split_and!.
    + injection Hrun as <- <- <-. by split_and!.
  - destruct (confirm_delete s !! filename) as [[|]|] eqn:Hflag; simpl in Hrun;
      injection Hrun as <- <- <-; split_and!; try done.
    intros _. split; [done|]. intros _. simpl. apply lookup_insert_eq.
  - destruct (confirm_delete s !! filename) as [[|]|] eqn:Hflag; simpl in Hrun;
      injection Hrun as <- <- <-; by split_and!.
Qed.

End controls.

Lemma listed_record_deletable_witness :
  ∃ assessments a,
    coach_load (Some sample_directory) = Ok assessments ∧ a ∈ assessments ∧
    ∃ name, json_getitem a "filename" = Ok (JStr name) ∧
            is_Some (sample_directory !! name).
Proof.
  destruct coach_load_sample_directory as (a & Hload & _).
  assert (Hin : a ∈ [a]) by (by left).
  destruct (listed_record_deletable sample_directory [a] a Hload Hin)
    as (name & Hname & Hsome & _).
  exists [a], a. split_and!; [exact Hload|exact Hin|].
  exists name. by split.
Defined.


Lemma delete_controls_two_step_witness :
  let files : gmap string (option json) := {[ "a.json" := None ]} in
  let s := set_confirm_delete {[ "a.json" := true ]} (initial_session_state sample_time) in
  delete_controls (Some "confirm_yes_a.json") "a.json" s files = Ok (s, ∅, Rerun) ∧
  confirm_delete s !! "a.json" = Some true.
Proof.
  intros files s.
  assert (Hrun : delete_controls (Some "confirm_yes_a.json") "a.json" s files
                 = Ok (s, ∅, Rerun)) by reflexivity.
  split; [exact Hrun|].
  assert (Hne : (∅ : gmap string (option json)) ≠ files).
  { intros Heq.
    apply (f_equal (λ m : gmap string (option json), m !! "a.json")) in Heq.
    discriminate Heq. }
  exact (proj1 (proj1 (delete_controls_two_step _ _ _ _ _ _ _ Hrun) Hne)).
Defined.

(** ** Answers and the statements they belong to *)

Lemma NoDup_fmap_elem_inj {A B} (f : A → B) (l : list A) x y :
  NoDup (f <$> l) → x ∈ l → y ∈ l → f x = f y → x = y.
Proof.
  induction l as [|a l IH]; intros Hnd Hx Hy Hf; [by apply not_elem_of_nil in Hx|].
  rewrite fmap_cons in Hnd. apply NoDup_cons in Hnd as [Ha Hnd].
  apply elem_of_cons in Hx as [->|Hx]; apply elem_of_cons in Hy as [->|Hy].
  - done.
  - exfalso. apply Ha. rewrite Hf. apply list_elem_of_fmap. eauto.
  - exfalso. apply Ha. rewrite <- Hf. apply list_elem_of_fmap. eauto.
  - by apply IH.
Qed.

Lemma widget_keys_NoDup : NoDup (widget_key <$> all_questions).
Proof. apply (bool_decide_unpack _). vm_compute. exact I. Qed.

(** Whatever order the questions are shown in, each answer is recorded
    under the dimension and statement of its own question: after the page
    has rendered, the rating of a statement is the option held by the
    widget keyed with that statement's question number. *)
Theorem answers_follow_their_statements
    (w : gmap string nat) (qs : list question) (sc : gmap string (gmap string Z))
    (q : question) :
  widgets_in_range w → qs ≡ₚ all_questions → q ∈ all_questions →
  rating (render_questions w qs sc) (dimension_key q) (statement_key q)
    = selectbox sorted_option_keys (w !! widget_key q).
Proof.
  intros Hw Hp Hq.
  assert (Hnd : NoDup (question_pair <$> qs)).
  { rewrite Hp. apply all_questions_pairs_NoDup. }
  destruct (render_questions_rating w qs sc Hw Hnd) as [Hin _].
  apply Hin. by rewrite Hp.
Qed.

(** Changing the choice in one widget changes the rating of that
    question's statement and of no other. *)
Theorem change_one_answer
    (w : gmap string nat) (qs : list question) (sc : gmap string (gmap string Z))
    (q0 : question) (i : nat) :
  widgets_in_range w → i < 10 → qs ≡ₚ all_questions → q0 ∈ all_questions →
  rating (render_questions (<[widget_key q0 := i]> w) qs sc)
         (dimension_key q0) (statement_key q0) = sorted_option_keys !! i ∧
  ∀ q, q ∈ all_questions → q ≠ q0 →
    rating (render_questions (<[widget_key q0 := i]> w) qs sc)
           (dimension_key q) (statement_key q)
    = rating (render_questions w qs sc) (dimension_key q) (statement_key q).
Proof.
  intros Hw Hi Hp Hq0.
  assert (Hw' : widgets_in_range (<[widget_key q0 := i]> w)).
  { intros k j Hk. apply lookup_insert_Some in Hk as [[_ <-]|[_ Hk]]; [done|].
    by apply (Hw _ _ Hk). }
  split.
  - rewrite rating_is_widget_choice by done.
    by rewrite lookup_insert_eq.
  - intros q Hq Hne. rewrite !rating_is_widget_choice by done.
    rewrite lookup_insert_ne; [done|]. intros Hk. apply Hne. symmetry.
    by apply (NoDup_fmap_elem_inj widget_key all_questions _ _ widget_keys_NoDup).
Qed.

Lemma store_response_fixed q v (sc : gmap string (gmap string Z)) :
  rating sc (dimension_key q) (statement_key q) = Some v →
  store_response q (Some v) sc = sc.
Proof.
  unfold rating, store_response. intros Hr.
  destruct (sc !! dimension_key q) as [d|] eqn:Hd; simpl in Hr; [|done].
  case_bool_decide; [|done].
  rewrite bool_decide_eq_false_2.
  - apply alter_id. intros d' Hd'. rewrite Hd in Hd'. injection Hd' as <-.
    by apply insert_id.
  - intros Hn. apply Hn. apply elem_of_dom. by rewrite Hd.
Qed.

Lemma render_questions_fixed w : ∀ (qs : list question) sc,
  (∀ q, q ∈ qs →
     rating sc (dimension_key q) (statement_key q)
       = selectbox sorted_option_keys (w !! widget_key q)) →
  render_questions w qs sc = sc.
Proof.
  induction qs as [|q qs IH]; intros sc Hfix; [done|].
  rewrite render_questions_cons.
  pose proof (Hfix q ltac:(by left)) as Hq.
  destruct (selectbox sorted_option_keys (w !! widget_key q)) as [v|] eqn:Hsel.
  - rewrite (store_response_fixed q v sc Hq). apply IH.
    intros q' Hq'. apply Hfix. by right.
  - simpl. apply IH. intros q' Hq'. apply Hfix. by right.
Qed.

(** Rendering the page again with the widgets untouched leaves the
    ScoreMap exactly as the first rendering made it. *)
Theorem render_questions_idempotent
    (w : gmap string nat) (qs : list question) (sc : gmap string (gmap string Z)) :
  widgets_in_range w → qs ≡ₚ all_questions →
  render_questions w qs (render_questions w qs sc) = render_questions w qs sc.
Proof.
  intros Hw Hp. apply render_questions_fixed. intros q Hq.
  apply rating_is_widget_choice; [done|done|]. by rewrite <- Hp.
Qed.

(** ** Totals as answers come in *)

Lemma sum_values_insert_any (d : gmap string Z) k v :
  sum_values (<[k:=v]> d) = (sum_values d - default 0 (d !! k) + v)%Z.
Proof.
  destruct (d !! k) as [old|] eqn:E; simpl.
  - rewrite <- insert_delete_eq.
    rewrite sum_values_insert by apply lookup_delete_eq.
    rewrite (sum_values_delete d k old E). lia.
  - rewrite sum_values_insert by done. lia.
Qed.

(** Recording an answer moves the total of the question's dimension by
    the new rating minus the one it replaces (minus nothing for a first
    answer) and leaves every other dimension's total alone. *)
Theorem store_response_total
    (q : question) (v : Z) (sc : gmap string (gmap string Z)) (dk : string) :
  v ≠ 0%Z →
  ∃ t, calculate_dimension_score sc dk = Ok t ∧
    calculate_dimension_score (store_response q (Some v) sc) dk =
      Ok (if decide (dk = dimension_key q)
          then (t - default 0 (rating sc (dimension_key q) (statement_key q)) + v)%Z
          else t).
Proof.
  intros Hv. rewrite !calculate_dimension_score_eq. eexists. split; [done|].
  f_equal. unfold store_response, rating. rewrite bool_decide_eq_true_2 by done.
  case_decide as Hdk.
  - subst dk. rewrite lookup_alter_eq. case_bool_decide as Hdom.
    + apply not_elem_of_dom in Hdom. rewrite lookup_insert_eq, Hdom. simpl.
      rewrite sum_values_insert_any, sum_values_empty, lookup_empty. done.
    + apply elem_of_dom in Hdom as [d Hd]. rewrite Hd. simpl.
      apply sum_values_insert_any.
  - rewrite lookup_alter_ne by done.
    case_bool_decide; [by rewrite lookup_insert_ne|done].
Qed.

Lemma store_response_total_witness :
  let q := {| dimension_key := "purpose_vision"; statement_key := "vision";
              statement := "Creates and effectively communicates a compelling vision for the future";
              question_number := 1 |} in
  (7 ≠ 0)%Z ∧
  calculate_dimension_score (store_response q (Some 7%Z) (scores sample_session))
    "purpose_vision" = Ok 12%Z.
Proof.
  intros q. assert (Hv : (7 ≠ 0)%Z) by lia. split; [exact Hv|].
  destruct (store_response_total q 7 (scores sample_session) "purpose_vision" Hv)
    as (t & Ht & Hnew).
  rewrite Hnew. vm_compute in Ht. injection Ht as <-. reflexivity.
Defined.

(** ** The thank-you page *)

Lemma mapM_result_cons {A B} (f : A → result B) x l :
  mapM f (x :: l) = y ← f x; k ← mapM f l; Ok (y :: k).
Proof. reflexivity. Qed.

Lemma mapM_result_Ok {A B} (f : A → result B) (l : list A) :
  (∀ x, x ∈ l → ∃ y, f x = Ok y) →
  ∃ ys, mapM f l = Ok ys ∧ Forall2 (λ x y, f x = Ok y) l ys.
Proof.
  induction l as [|x l IH]; intros Hall.
  { exists []. by split. }
  destruct (Hall x ltac:(by left)) as [y Hy].
  destruct IH as (ys & Hys & HF); [intros x' Hx'; apply Hall; by right|].
  exists (y :: ys). rewrite mapM_result_cons, Hy. simpl. rewrite Hys. simpl.
  split; [done|by constructor].
Qed.

Lemma mapM_result_inv {A B} (f : A → result B) (l : list A) ys :
  mapM f l = Ok ys → Forall2 (λ x y, f x = Ok y) l ys.
Proof.
  revert ys. induction l as [|x l IH]; intros ys Hok.
  { injection Hok as <-. constructor. }
  rewrite mapM_result_cons in Hok.
  destruct (f x) as [y|] eqn:Hy; simpl in Hok; [|done].
  destruct (mapM f l) as [k|] eqn:Hk; simpl in Hok; [|done].
  injection Hok as <-. constructor; [done|by apply IH].
Qed.

Lemma dimension_title_Ok key : (∃ t, dimension_title key = Ok t) ↔ key ∈ dimension_keys.
Proof.
  unfold dimension_title, dimensions_get, dimension_keys.
  destruct (list_to_map dimensions !! key) as [d|] eqn:E.
  - split; [intros _|by eauto]. apply elem_of_list_to_map_2 in E.
    apply list_elem_of_fmap. by exists (key, d).
  - split; [by intros [? ?]|]. intros Hin.
    by apply not_elem_of_list_to_map_2 in E.
Qed.

Lemma keys_of_totals (sc : gmap string (gmap string Z)) key :
  key ∈ (map_to_list (dimension_scores_of sc)).*1 ↔ is_Some (sc !! key).
Proof.
  unfold dimension_scores_of. rewrite list_elem_of_fmap. split.
  - intros ([k t] & -> & Hin). apply elem_of_map_to_list in Hin.
    rewrite lookup_fmap in Hin. simpl. by destruct (sc !! k).
  - intros [d Hd]. exists (key, sum_values d). split; [done|].
    apply elem_of_map_to_list. by rewrite lookup_fmap, Hd.
Qed.

Section thank_you.
Context {text : Type} `{FileSystem text}.

Lemma thank_you_page_renders_iff (s : session_state) :
  ((∃ totals, thank_you_page s = Ok totals) ↔
   (∀ dk, is_Some (scores s !! dk) → dk ∈ dimension_keys) ∧
   (∀ dk sk, (dk, sk) ∈ catalog_pairs → is_Some (rating (scores s) dk sk))) ∧
  (∀ totals, thank_you_page s = Ok totals → totals = dimension_scores_of (scores s)).
Proof.
  unfold thank_you_page.
  remember (mapM _ (map_to_list (dimension_scores_of (scores s))).*1) as cs eqn:Hc.
  remember (mapM _ catalog_pairs) as rs eqn:Hr.
  symmetry in Hc, Hr. split; [split|].
  - intros [totals Hok].
    destruct cs as [cats|]; simpl in Hok; [|done].
    destruct cats as [|c cats]; simpl in Hok; [done|].
    destruct rs as [vs|]; simpl in Hok; [|done].
    apply mapM_result_inv in Hc. apply mapM_result_inv in Hr. split.
    + intros dk Hdk. apply keys_of_totals in Hdk.
      apply list_elem_of_lookup in Hdk as [i Hi].
      destruct (Forall2_lookup_l _ _ _ _ _ Hc Hi) as (t & _ & Ht).
      apply dimension_title_Ok. by exists t.
    + intros dk sk Hin. apply list_elem_of_lookup in Hin as [i Hi].
      destruct (Forall2_lookup_l _ _ _ _ _ Hr Hi) as (v & _ & Hv).
      simpl in Hv. unfold rating, getitem in *.
      destruct (scores s !! dk) as [d|]; simpl in *; [|done].
      destruct (d !! sk); [done|done].
  - intros [Hkeys Hpairs].
    destruct (mapM_result_Ok dimension_title (map_to_list (dimension_scores_of (scores s))).*1)
      as (cats & Hc' & HF).
    { intros key Hkey. apply dimension_title_Ok, Hkeys. by apply keys_of_totals. }
    destruct (mapM_result_Ok
                (λ p : string * string, d ← getitem (scores s) p.1; getitem d p.2)
                catalog_pairs) as (vs & Hr' & _).
    { intros [dk sk] Hin. destruct (Hpairs dk sk Hin) as [v Hv].
      exists v. simpl. unfold rating, getitem in *.
      destruct (scores s !! dk) as [d|]; simpl in *; [|done]. by rewrite Hv. }
    unfold dimension_title in Hc'. rewrite Hc' in Hc. rewrite Hr' in Hr.
    subst cs rs. simpl.
    destruct cats as [|c cats]; simpl; [|by eauto].
    exfalso. apply Forall2_nil_inv_r in HF.
    destruct (Hpairs "purpose_vision" "vision") as [v Hv].
    { apply list_elem_of_In. vm_compute. tauto. }
    assert (Hk : "purpose_vision" ∈ (map_to_list (dimension_scores_of (scores s))).*1).
    { apply keys_of_totals. unfold rating in Hv.
      by destruct (scores s !! "purpose_vision"). }
    rewrite HF in Hk. by apply not_elem_of_nil in Hk.
  - intros totals Hok.
    destruct cs as [cats|]; simpl in Hok; [|done].
    destruct cats as [|c cats]; simpl in Hok; [done|].
    destruct rs as [vs|]; simpl in Hok; [|done].
    by injection Hok as <-.
Qed.

(** The thank-you page renders exactly when every dimension in the
    ScoreMap is a catalog dimension and every statement of the catalog has
    a rating; it then shows the totals of the ScoreMap.  Otherwise it
    raises. *)
Theorem thank_you_page_spec (s : session_state) :
  ((∃ totals, thank_you_page s = Ok totals) ↔
   (∀ dk, is_Some (scores s !! dk) → dk ∈ dimension_keys) ∧
   (∀ dk sk, (dk, sk) ∈ catalog_pairs → is_Some (rating (scores s) dk sk))) ∧
  (∀ totals, thank_you_page s = Ok totals → totals = dimension_scores_of (scores s)).
Proof. apply thank_you_page_renders_iff. Qed.

Lemma thank_you_page_complete (s : session_state) :
  complete_scores (scores s) → thank_you_page s = Ok (dimension_scores_of (scores s)).
Proof.
  intros [Hcat Hall].
  destruct (thank_you_page_renders_iff s) as [[_ Hok] Htot].
  destruct Hok as [totals Ht].
  - split.
    + intros dk [d Hd]. by apply (Hcat dk d Hd).
    + intros dk sk Hin. destruct (Hall dk sk Hin) as (v & Hv & _). by rewrite Hv.
  - by rewrite Ht, (Htot _ Ht).
Qed.

(** ** The respondent's flow as a whole *)

Lemma show_wizard_page_page r complete now now' s (data : @directory text) :
  page (show_wizard_page r complete now now' s data).1.1 = "thank_you" ∨
  page (show_wizard_page r complete now now' s data).1.1 = page s.
Proof.
  unfold show_wizard_page.
  destruct (wizard_questions r s) as [[qs s1] r1] eqn:E.
  assert (page s1 = page s) as Hp.
  { unfold wizard_questions in E. destruct (randomized_questions s).
    - by injection E as _ <- _.
    - destruct (shuffle r all_questions). by injection E as _ <- _. }
  destruct complete; [|by right].
  destruct (save_assessment_data _ _ _ _) as [d [[]|e]]; [by left|by right].
Qed.

Lemma reachable_pages_aux (s : session_state) :
  reachable (text := text) s →
  page s = "welcome" ∨ page s = "assessment" ∨ page s = "thank_you".
Proof.
  induction 1 as [now|s w _ IH Hw|coach_view inp s s' data data' v sig _ IH Hc Hm
                 |inp s data _ IH Hc Hp].
  - by left.
  - exact IH.
  - unfold main in Hm. rewrite Hc in Hm. repeat case_decide.
    + destruct (coachee_info_form _ _ _ _ _ s) as [s1 sig1] eqn:E.
      injection Hm as <- <- <- <-. unfold coachee_info_form in E.
      destruct (form_submitted inp); [destruct (_ && _)|]; injection E as <- <-;
        [right; by left|by left|by left].
    + unfold py_call in Hm. simpl in Hm.
      pose proof (show_wizard_page_page (rng inp) (complete_clicked inp)
                    (now_completion inp) (now_filename inp) s data) as Hpg.
      destruct (show_wizard_page _ _ _ _ s data) as [[s1 d1] [sig1|e]];
        simpl in Hm; [|done].
      injection Hm as <- <- <- <-. simpl in Hpg.
      destruct Hpg as [->| ->]; [right; by right|right; by left].
    + destruct (thank_you_page s); [|done]. simpl in Hm.
      injection Hm as <- <- <- <-. right; by right.
    + done.
    + injection Hm as <- <- <- <-. exact IH.
  - destruct (show_wizard_page_page (rng inp) (complete_clicked inp)
                (now_completion inp) (now_filename inp) s data) as [->| ->];
      [right; by right|right; by left].
Qed.

(** The page of a session only ever is the welcome page, the questionnaire
    or the thank-you page: the routing branch for a page named after a
    dimension is never taken. *)
Theorem reachable_pages (s : session_state) :
  reachable (text := text) s →
  page s = "welcome" ∨ page s = "assessment" ∨ page s = "thank_you".
Proof. apply reachable_pages_aux. Qed.

Lemma assessment_filename_email s s' t :
  coachee_email s' = coachee_email s → assessment_filename s' t = assessment_filename s t.
Proof. intros He. unfold assessment_filename. by rewrite He. Qed.

Lemma main_welcome (coach_view : result outcome) inp s (data : @directory text) :
  is_coach (query_params inp) = false → page s = "welcome" →
  ∃ s' sig, main coach_view inp s data = Ok (WelcomeView, s', data, sig).
Proof.
  intros Hc Hp. unfold main. rewrite Hc, Hp. simpl.
  destruct (coachee_info_form _ _ _ _ _ s) as [s1 sig1]. eauto.
Qed.

Lemma main_assessment (coach_view : result outcome) inp s (data : @directory text) :
  is_coach (query_params inp) = false → page s = "assessment" →
  main coach_view inp s data =
    let '(s', data', r) :=
      show_wizard_page (rng inp) (complete_clicked inp)
        (now_completion inp) (now_filename inp) s data in
    sig ← r; Ok (WizardView, s', data', sig).
Proof. intros Hc Hp. unfold main. rewrite Hc, Hp. reflexivity. Qed.

Lemma main_thank_you (coach_view : result outcome) inp s (data : @directory text) :
  is_coach (query_params inp) = false → page s = "thank_you" →
  main coach_view inp s data = (_ ← thank_you_page s; Ok (ThankYouView, s, data, Idle)).
Proof. intros Hc Hp. unfold main. rewrite Hc, Hp. reflexivity. Qed.

Lemma open_write_raise filename (content : text) files e :
  open_write filename content files = Raise e →
  name_error filename = Some e ∨
  (name_error filename = None ∧ is_Some (path_head filename) ∧
   (e = FileNotFoundError ∨ e = NotADirectoryError)).
Proof.
  unfold open_write. destruct (name_error filename) as [e0|].
  { intros [= <-]. by left. }
  destruct (path_head filename) as [head|]; [|done].
  destruct (files !! head); intros [= <-]; right; split_and!; eauto.
Qed.

(** What a run of the respondent's flow comes to, from a session the flow
    can be in. *)
Lemma main_outcome
    (coach_view : result outcome) (inp : run_input)
    (s : session_state) (data : @directory text) :
  reachable (text := text) s → is_coach (query_params inp) = false →
  ((∃ out, main coach_view inp s data = Ok out) ∧
   ¬ (page s = "assessment" ∧ complete_clicked inp = true ∧
      ¬ storable (text := text) (assessment_filename s (now_filename inp)))) ∨
  (∃ e, main coach_view inp s data = Raise e ∧
     (page s = "assessment" ∧ complete_clicked inp = true ∧
      ¬ storable (text := text) (assessment_filename s (now_filename inp))) ∧
     (name_error (assessment_filename s (now_filename inp)) = Some e ∨
      (name_error (assessment_filename s (now_filename inp)) = None ∧
       is_Some (path_head (fstr (coachee_email s))) ∧
       (e = FileNotFoundError ∨ e = NotADirectoryError)))).
Proof.
  intros Hr Hc. pose proof (reachable_session_ok s Hr) as (_ & _ & Hseq & Hty).
  destruct (reachable_pages_aux s Hr) as [Hp|[Hp|Hp]].
  - left. destruct (main_welcome coach_view inp s data Hc Hp) as (s' & sig & ->).
    split; [by eauto|]. rewrite Hp. by intros (? & _).
  - rewrite (main_assessment coach_view inp s data Hc Hp).
    destruct (show_wizard_page_shape (rng inp) (complete_clicked inp)
                (now_completion inp) (now_filename inp) s data Hseq)
      as (qs & s1 & Hperm & Hs1 & ->). cbv zeta.
    remember (set_scores (render_questions (widget_index s) qs (scores s)) s1)
      as s2 eqn:Hs2.
    assert (Hname : assessment_filename s2 (now_filename inp)
                    = assessment_filename s (now_filename inp)).
    { apply assessment_filename_email. subst s2. by destruct Hs1 as [->| ->]. }
    destruct (complete_clicked inp) eqn:Hcl.
    + unfold save_assessment_data. rewrite Hname.
      destruct (open_write (assessment_filename s (now_filename inp))
                  (json_dump (assessment_data s2 (now_completion inp)))
                  (ensure_data data)) as [files'|e] eqn:Hopen.
      * left. split; [by eauto|]. intros (_ & _ & Hn). apply Hn.
        by apply open_write_Ok in Hopen as [? _].
      * right. exists e. split; [done|]. split.
        -- split_and!; [done|done|]. intros Hst.
           by rewrite (open_write_storable _ _ _ Hst) in Hopen.
        -- apply open_write_raise in Hopen.
           rewrite path_head_assessment_filename in Hopen.
           by rewrite fmap_is_Some in Hopen.
    + left. split; [by eauto|]. by intros (_ & ? & _).
  - left. rewrite (main_thank_you coach_view inp s data Hc Hp).
    rewrite (thank_you_page_complete s (Hty Hp)).
    split; [by eauto|]. rewrite Hp. by intros (? & _).
Qed.

(** A run of the respondent's flow raises in one situation only: the
    respondent presses "Complete Assessment" and the file name built from
    the email cannot be stored (the email has a path separator, or the
    file system refuses the name).  Every other run, from any session the
    flow can be in and with any input, goes to its end.  What is raised
    then is what [open] raises. *)
Theorem respondent_flow_raises_only_in_save
    (coach_view : result outcome) (inp : run_input)
    (s : session_state) (data : @directory text) :
  reachable (text := text) s → is_coach (query_params inp) = false →
  ((∃ out, main coach_view inp s data = Ok out) ↔
   ¬ (page s = "assessment" ∧ complete_clicked inp = true ∧
      ¬ storable (text := text) (assessment_filename s (now_filename inp)))) ∧
  ((∃ e, main coach_view inp s data = Raise e) ↔
   page s = "assessment" ∧ complete_clicked inp = true ∧
   ¬ storable (text := text) (assessment_filename s (now_filename inp))) ∧
  (∀ e, main coach_view inp s data = Raise e →
     name_error (assessment_filename s (now_filename inp)) = Some e ∨
     (name_error (assessment_filename s (now_filename inp)) = None ∧
      is_Some (path_head (fstr (coachee_email s))) ∧
      (e = FileNotFoundError ∨ e = NotADirectoryError))).
Proof.
  intros Hr Hc.
  destruct (main_outcome coach_view inp s data Hr Hc)
    as [[[out Hm] Hgood]|(e & Hm & Hbad & Hwhich)]; rewrite Hm; split_and!.
  - split; [done|by eauto].
  - split; [by intros [? ?]|done].
  - done.
  - split; [by intros [? ?]|done].
  - split; [done|by eauto].
  - by intros e' [= <-].
Qed.

End thank_you.

Lemma reachable_pages_witness :
  let s1 := (coachee_info_form true "Jane Doe" "jane@example.com" "" sample_time
               (initial_session_state sample_time)).1 in
  let s2 := (show_wizard_page (text := option json) (rng sample_input) true
               sample_time sample_time (set_widget_index sample_widgets s1) None).1.1 in
  reachable (text := option json) s1 ∧ page s1 = "assessment" ∧
  reachable (text := option json) s2 ∧ page s2 = "thank_you" ∧
  (page s2 = "welcome" ∨ page s2 = "assessment" ∨ page s2 = "thank_you").
Proof.
  intros s1 s2.
  assert (Hr1 : reachable (text := option json) s1).
  { apply (reach_run (Raise KeyError) sample_input (initial_session_state sample_time)
             s1 None None WelcomeView Rerun); [constructor|reflexivity|reflexivity]. }
  assert (Hr2 : reachable (text := option json) s2).
  { apply (reach_run (Raise KeyError) sample_input (set_widget_index sample_widgets s1)
             s2 None
             (show_wizard_page (text := option json) (rng sample_input) true
                sample_time sample_time (set_widget_index sample_widgets s1) None).1.2
             WizardView Rerun).
    - apply reach_select; [exact Hr1|exact sample_widgets_in_range].
    - reflexivity.
    - vm_compute. reflexivity. }
  split_and!; [exact Hr1|reflexivity|exact Hr2|reflexivity|].
  exact (reachable_pages s2 Hr2).
Defined.

Lemma respondent_flow_raises_only_in_save_witness :
  let s := set_widget_index sample_widgets
             (coachee_info_form true "Jane Doe" "n/a" "" sample_time
                (initial_session_state sample_time)).1 in
  reachable (text := option json) s ∧
  is_coach (query_params sample_input) = false ∧
  page s = "assessment" ∧ complete_clicked sample_input = true ∧
  main (text := option json) (Raise KeyError) sample_input s None
    = Raise FileNotFoundError.
Proof.
  intros s.
  assert (Hr : reachable (text := option json) s).
  { apply reach_select; [|exact sample_widgets_in_range].
    apply (reach_run (Raise KeyError)
             {| query_params := ∅; rng := []; form_submitted := true;
                form_name := "Jane Doe"; form_email := "n/a"; form_phone := "";
                complete_clicked := false; now_intake := sample_time;
                now_completion := sample_time; now_filename := sample_time |}
             (initial_session_state sample_time) _ None None WelcomeView Rerun);
      [constructor|reflexivity|reflexivity]. }
  split_and!; [exact Hr|reflexivity..|].
  destruct (respondent_flow_raises_only_in_save (text := option json)
              (Raise KeyError) sample_input s None Hr eq_refl)
    as (_ & Hraise & Hwhich).
  destruct (proj2 Hraise) as [e He].
  { split_and!; [reflexivity|reflexivity|]. intros [_ Hp]. discriminate Hp. }
  rewrite He. f_equal.
  destruct (Hwhich e He) as [Hn|(_ & _ & [->| ->])]; [discriminate Hn|done|].
  exfalso. vm_compute in He. discriminate He.
Defined.

Lemma answers_follow_their_statements_witness :
  let q := {| dimension_key := "purpose_vision"; statement_key := "vision";
              statement := "Creates and effectively communicates a compelling vision for the future";
              question_number := 1 |} in
  widgets_in_range sample_widgets ∧
  all_questions ≡ₚ all_questions ∧
  q ∈ all_questions ∧
  rating (render_questions sample_widgets all_questions ∅) "purpose_vision" "vision"
    = Some 10%Z.
Proof.
  intros q.
  assert (Hw : widgets_in_range sample_widgets).
  { intros k i Hk. unfold sample_widgets in Hk.
    apply elem_of_list_to_map_2, list_elem_of_fmap in Hk as (q' & [= _ ->] & _). lia. }
  assert (Hq : q ∈ all_questions) by (apply list_elem_of_In; vm_compute; tauto).
  split_and!; [exact Hw|reflexivity|exact Hq|].
  rewrite (answers_follow_their_statements sample_widgets all_questions ∅ q Hw
             (reflexivity _) Hq).
  reflexivity.
Defined.

Lemma change_one_answer_witness :
  let q := {| dimension_key := "purpose_vision"; statement_key := "vision";
              statement := "Creates and effectively communicates a compelling vision for the future";
              question_number := 1 |} in
  widgets_in_range ∅ ∧ 4 < 10 ∧ all_questions ≡ₚ all_questions ∧ q ∈ all_questions ∧
  rating (render_questions (<[widget_key q := 4]> ∅) all_questions ∅)
         "purpose_vision" "vision" = Some 5%Z.
Proof.
  intros q.
  assert (Hw : widgets_in_range ∅) by (intros k i Hk; done).
  assert (Hi : 4 < 10) by lia.
  assert (Hq : q ∈ all_questions) by (apply list_elem_of_In; vm_compute; tauto).
  split_and!; [exact Hw|exact Hi|reflexivity|exact Hq|].
  exact (proj1 (change_one_answer ∅ all_questions ∅ q 4 Hw Hi (reflexivity _) Hq)).
Defined.

Lemma render_questions_idempotent_witness :
  widgets_in_range sample_widgets ∧ all_questions ≡ₚ all_questions ∧
  render_questions sample_widgets all_questions
    (render_questions sample_widgets all_questions ∅)
  = render_questions sample_widgets all_questions ∅.
Proof.
  assert (Hw : widgets_in_range sample_widgets).
  { intros k i Hk. unfold sample_widgets in Hk.
    apply elem_of_list_to_map_2, list_elem_of_fmap in Hk as (q' & [= _ ->] & _). lia. }
  split_and!; [exact Hw|reflexivity|].
  exact (render_questions_idempotent sample_widgets all_questions ∅ Hw (reflexivity _)).
Defined.

(** ** Bands and the ranges of the interpretation table *)

(** For a total between 0 and 60 the band the if-chain picks is exactly
    the one whose ['range'] in [score_interpretations] contains the total:
    the five ranges of a dimension do not overlap and leave no gap. *)
Theorem band_is_the_range_holding_the_total
    (dimension_key : string) (score : Z) (lv : level) (lo hi : Z) :
  (0 ≤ score ≤ 60)%Z →
  interpretation_range dimension_key lv = Ok (lo, hi) →
  ((lo ≤ score ≤ hi)%Z ↔ lv = coach_summary_level score).
Proof.
  intros Hs Hr. destruct (decide (dimension_key ∈ dimension_keys)) as [Hin|Hout].
  - revert Hin Hr. rewrite dimension_keys_eq, !elem_of_cons, elem_of_nil.
    intros Hin; destruct_or!; try done; subst dimension_key;
      destruct lv; intros Hr; vm_compute in Hr; injection Hr as <- <-;
      unfold coach_summary_level; repeat case_match; split;
      (discriminate || lia || done).
  - by rewrite interpretation_range_out in Hr.
Qed.

Lemma band_is_the_range_holding_the_total_witness :
  (0 ≤ 45 ≤ 60)%Z ∧
  interpretation_range "team_leadership" medium_high = Ok (41, 50)%Z ∧
  medium_high = coach_summary_level 45.
Proof.
  assert (H1 : (0 ≤ 45 ≤ 60)%Z) by lia.
  assert (H2 : interpretation_range "team_leadership" medium_high = Ok (41, 50)%Z)
    by reflexivity.
  split; [exact H1|]. split; [exact H2|].
  apply (band_is_the_range_holding_the_total "team_leadership" 45 medium_high 41 50 H1 H2).
  lia.
Defined.

(** ** The coach's analysis of a stored record *)

Lemma result_bind_Ok {A B} (x : A) (f : A → result B) : (Ok x ≫= f) = f x.
Proof. reflexivity. Qed.

Lemma dict_get_list_to_map (l : list (string * json)) k :
  dict_get k l = (list_to_map l : gmap string json) !! k.
Proof.
  induction l as [|[k' v] l IH]; simpl; [done|].
  destruct (decide (k = k')) as [->|Hne].
  - by rewrite lookup_insert_eq.
  - by rewrite lookup_insert_ne.
Qed.

Lemma json_getitem_scores (sc : gmap string (gmap string Z)) dk :
  json_getitem (scores_to_json sc) dk =
    match sc !! dk with Some d => Ok (ratings_to_json d) | None => Raise KeyError end.
Proof.
  unfold json_getitem, scores_to_json. rewrite dict_get_list_to_map.
  assert (list_to_map ((λ kv : string * gmap string Z, (kv.1, ratings_to_json kv.2))
                         <$> map_to_list sc)
          = (ratings_to_json <$> sc : gmap string json)) as ->.
  { rewrite <- (list_to_map_to_list sc) at 2. by rewrite <- list_to_map_fmap. }
  rewrite lookup_fmap. by destruct (sc !! dk).
Qed.

Lemma json_getitem_ratings (d : gmap string Z) sk :
  json_getitem (ratings_to_json d) sk =
    match d !! sk with Some v => Ok (JInt v) | None => Raise KeyError end.
Proof.
  unfold json_getitem, ratings_to_json. rewrite dict_get_list_to_map.
  assert (list_to_map ((λ kv : string * Z, (kv.1, JInt kv.2)) <$> map_to_list d)
          = (JInt <$> d : gmap string json)) as ->.
  { rewrite <- (list_to_map_to_list d) at 2. by rewrite <- list_to_map_fmap. }
  rewrite lookup_fmap. by destruct (d !! sk).
Qed.

Lemma coach_dimension_scores_of_scores (a : json) (sc : gmap string (gmap string Z)) :
  json_getitem a "scores" = Ok (scores_to_json sc) →
  coach_dimension_scores a = Ok ((λ kv, (kv.1, sum_values kv.2)) <$> map_to_list sc).
Proof.
  intros Ha. unfold coach_dimension_scores. rewrite Ha. simpl.
  apply (coach_totals_loop_scores (map_to_list sc) []).
Qed.

Lemma statements_of_dimension dk d st :
  dimensions_get dk = Some d → st ∈ statements d → (dk, st.1) ∈ catalog_pairs.
Proof.
  intros Hd Hst. apply catalog_pairs_keys. split.
  - apply dimension_title_Ok. unfold dimension_title. rewrite Hd. eauto.
  - unfold statement_keys. rewrite Hd. apply list_elem_of_fmap. eauto.
Qed.

Lemma coach_dimension_tab_complete (a : json) (sc : gmap string (gmap string Z)) dk d0 :
  json_getitem a "scores" = Ok (scores_to_json sc) → complete_scores sc →
  sc !! dk = Some d0 →
  ∃ lo hi detail,
    coach_dimension_tab a dk (sum_values d0)
      = Ok (coach_summary_level (sum_values d0), (lo, hi), detail) ∧
    (lo ≤ sum_values d0 ≤ hi)%Z ∧ (6 ≤ sum_values d0 ≤ 60)%Z ∧ length detail = 6.
Proof.
  intros Ha Hc Hdk. pose proof Hc as [Hcat Hall].
  destruct (Hcat dk d0 Hdk) as [Hin _].
  destruct (complete_scores_totals sc dk Hc Hin) as (t & Ht & Hrange).
  rewrite calculate_dimension_score_eq, Hdk in Ht. injection Ht as <-.
  destruct (interpretation_range_in dk (coach_summary_level (sum_values d0)) Hin)
    as ([lo hi] & Hr & _).
  assert (Hlohi : (lo ≤ sum_values d0 ≤ hi)%Z).
  { apply (level_matches_range dk); [lia|done]. }
  destruct (dimensions_get dk) as [d|] eqn:Hd.
  2: { apply dimension_title_Ok in Hin as [? Ht]. unfold dimension_title in Ht.
       by rewrite Hd in Ht. }
  destruct (mapM_result_Ok
              (λ st : string * string,
                 s ← json_getitem a "scores"; ds ← json_getitem s dk;
                 v ← json_getitem ds st.1; Ok (st.2, v)) (statements d))
    as (detail & Hdet & HF).
  { intros st Hst. rewrite Ha, result_bind_Ok, json_getitem_scores, Hdk.
    rewrite result_bind_Ok, json_getitem_ratings.
    destruct (Hall dk st.1 (statements_of_dimension dk d st Hd Hst)) as (v & Hv & _).
    unfold rating in Hv. rewrite Hdk in Hv. simpl in Hv. rewrite Hv.
    rewrite result_bind_Ok. eauto. }
  exists lo, hi, detail. unfold coach_dimension_tab. rewrite Hr. simpl.
  rewrite Hd. simpl. rewrite Hdet. simpl.
  split; [done|]. split; [exact Hlohi|]. split; [exact Hrange|].
  apply Forall2_length in HF. rewrite <- HF.
  pose proof (statement_keys_length dk Hin) as Hlen.
  unfold statement_keys in Hlen. rewrite Hd in Hlen. by rewrite length_fmap in Hlen.
Qed.

Lemma analysis_of_complete_scores
    (a : json) (sc : gmap string (gmap string Z)) :
  json_getitem a "scores" = Ok (scores_to_json sc) → complete_scores sc →
  ∃ tabs, coach_analysis a = Ok tabs ∧
    tabs.*1 = (λ kv, (kv.1, sum_values kv.2)) <$> map_to_list sc ∧
    ∀ dk t lv lo hi detail, (dk, t, (lv, (lo, hi), detail)) ∈ tabs →
      calculate_dimension_score sc dk = Ok t ∧ (6 ≤ t ≤ 60)%Z ∧
      lv = coach_summary_level t ∧ (lo ≤ t ≤ hi)%Z ∧ length detail = 6.
Proof.
  intros Ha Hc. pose proof Hc as [Hcat Hall].
  remember ((λ kv : string * gmap string Z, (kv.1, sum_values kv.2))
              <$> map_to_list sc) as totals eqn:Htotals.
  assert (Htot : ∀ e, e ∈ totals → ∃ d0, sc !! e.1 = Some d0 ∧ e.2 = sum_values d0).
  { intros e He. rewrite Htotals in He.
    apply list_elem_of_fmap in He as ([k d0] & -> & Hin).
    apply elem_of_map_to_list in Hin. by exists d0. }
  destruct (mapM_result_Ok dimension_title totals.*1) as (cats & Hcats & HFc).
  { intros k Hk. apply list_elem_of_fmap in Hk as (e & -> & He).
    destruct (Htot e He) as (d0 & Hd0 & _). apply dimension_title_Ok.
    by apply (Hcat _ _ Hd0). }
  destruct (mapM_result_Ok
              (λ e : string * Z, tab ← coach_dimension_tab a e.1 e.2; Ok (e.1, e.2, tab))
              totals) as (tabs & Htabs & HFt).
  { intros e He. destruct (Htot e He) as (d0 & Hd0 & He2).
    destruct (coach_dimension_tab_complete a sc e.1 d0 Ha Hc Hd0)
      as (lo & hi & detail & Htab & _).
    rewrite He2, Htab. simpl. eauto. }
  assert (Hne : ∃ e0 rest, totals = e0 :: rest).
  { destruct (Hall "purpose_vision" "vision") as (v & Hv & _).
    { apply list_elem_of_In. vm_compute. tauto. }
    unfold rating in Hv. destruct (sc !! "purpose_vision") as [d0|] eqn:Hd0; [|done].
    assert (("purpose_vision", sum_values d0) ∈ totals) as Hin.
    { rewrite Htotals. apply list_elem_of_fmap. exists ("purpose_vision", d0).
      split; [done|]. by apply elem_of_map_to_list. }
    destruct totals; [by apply not_elem_of_nil in Hin|eauto]. }
  exists tabs. split; [|split].
  - unfold coach_analysis.
    rewrite (coach_dimension_scores_of_scores a sc Ha), <- Htotals, result_bind_Ok.
    unfold radar_series. rewrite Hcats, Htabs.
    destruct Hne as (e0 & rest & Heq). rewrite Heq in HFc |- *.
    rewrite fmap_cons in HFc. apply Forall2_cons_inv_l in HFc as (c & cats' & _ & _ & ->).
    reflexivity.
  - clear -HFt. induction HFt as [|e tab l tabs' Hx _ IH]; [done|].
    rewrite !fmap_cons, IH. f_equal.
    destruct (coach_dimension_tab a e.1 e.2); simpl in Hx; [|done].
    injection Hx as <-. by destruct e.
  - intros dk t lv lo hi detail Hin.
    apply list_elem_of_lookup in Hin as [i Hi].
    destruct (Forall2_lookup_r _ _ _ _ _ HFt Hi) as (e & He & Hx).
    apply list_elem_of_lookup_2 in He. destruct (Htot e He) as (d0 & Hd0 & He2).
    destruct (coach_dimension_tab_complete a sc e.1 d0 Ha Hc Hd0)
      as (lo' & hi' & detail' & Htab & Hlohi & Hrange & Hlen).
    rewrite He2, Htab in Hx. simpl in Hx. injection Hx as <- <- <- <- <- <-.
    rewrite calculate_dimension_score_eq, Hd0.
    split; [done|]. split; [exact Hrange|]. split; [done|].
    split; [exact Hlohi|exact Hlen].
Qed.

(** For a record whose ['scores'] is a complete ScoreMap, the coach's
    analysis runs to its end.  It has one tab per dimension of the record;
    each tab shows the total [calculate_dimension_score] gives, between 6
    and 60, the band of that total, an interpretation whose ['range']
    contains it, and six detailed responses. *)
Theorem coach_analysis_of_complete_record
    (a : json) (sc : gmap string (gmap string Z)) :
  json_getitem a "scores" = Ok (scores_to_json sc) → complete_scores sc →
  ∃ tabs, coach_analysis a = Ok tabs ∧
    tabs.*1 = (λ kv, (kv.1, sum_values kv.2)) <$> map_to_list sc ∧
    ∀ dk t lv lo hi detail, (dk, t, (lv, (lo, hi), detail)) ∈ tabs →
      calculate_dimension_score sc dk = Ok t ∧ (6 ≤ t ≤ 60)%Z ∧
      lv = coach_summary_level t ∧ (lo ≤ t ≤ hi)%Z ∧ length detail = 6.
Proof. apply analysis_of_complete_scores. Qed.

Lemma coach_totals_loop_inv : ∀ (items : list (string * json)) acc totals,
  coach_totals_loop items acc = Ok totals →
  ∃ l, totals = (acc ++ l)%list ∧ l.*1 = items.*1 ∧
       ∀ k v, (k, v) ∈ items → ∃ ds, v = JDict ds.
Proof.
  induction items as [|[k v] items IH]; intros acc totals Hok; simpl in Hok.
  { injection Hok as <-. exists []. rewrite app_nil_r. split_and!; try done.
    intros k v Hin. by apply not_elem_of_nil in Hin. }
  destruct (json_sum_values v) as [t|] eqn:Ht; simpl in Hok; [|done].
  destruct (IH _ _ Hok) as (l & -> & Hkeys & Hd).
  exists ((k, t) :: l). rewrite <- app_assoc. split_and!; [done|by rewrite !fmap_cons, Hkeys|].
  intros k' v' Hin. apply elem_of_cons in Hin as [[= -> ->]|Hin]; [|by eapply Hd].
  destruct v; try done. eauto.
Qed.

(** What the analysis needs of a record: it runs to its end only if the
    record has a ['scores'] dictionary that is not empty, whose keys are
    catalog dimensions and whose values are dictionaries; it then has one
    tab per stored dimension.  A record without ['scores'] raises
    [KeyError], one with empty ['scores'] raises [IndexError]. *)
Theorem coach_analysis_requires (a : json) :
  (∀ tabs, coach_analysis a = Ok tabs →
     ∃ items, json_getitem a "scores" = Ok (JDict items) ∧ items ≠ [] ∧
       (∀ k v, (k, v) ∈ items → k ∈ dimension_keys ∧ ∃ ds, v = JDict ds) ∧
       tabs.*1.*1 = items.*1) ∧
  (∀ d, a = JDict d → dict_get "scores" d = None →
        coach_analysis a = Raise KeyError) ∧
  (json_getitem a "scores" = Ok (JDict []) → coach_analysis a = Raise IndexError).
Proof.
  split_and!.
  - intros tabs Hok. unfold coach_analysis in Hok.
    destruct (coach_dimension_scores a) as [totals|] eqn:Hds; simpl in Hok; [|done].
    destruct (radar_series totals) as [series|] eqn:Hrs; simpl in Hok; [|done].
    remember (mapM dimension_title totals.*1) as cs eqn:Hcs. symmetry in Hcs.
    destruct cs as [cats|]; simpl in Hok; [|done].
    unfold coach_dimension_scores in Hds.
    destruct (json_getitem a "scores") as [sc|] eqn:Hsc; simpl in Hds; [|done].
    destruct sc as [| | | |items]; simpl in Hds; try done.
    apply coach_totals_loop_inv in Hds as (l & -> & Hkeys & Hdicts). simpl in *.
    exists items. split_and!; [done| | |].
    + intros ->. destruct l; [|done]. unfold radar_series in Hrs. simpl in Hrs. done.
    + intros k v Hin. split; [|by eapply Hdicts].
      apply mapM_result_inv in Hcs. rewrite Hkeys in Hcs.
      assert (k ∈ items.*1) as Hk by (apply list_elem_of_fmap; by exists (k, v)).
      apply list_elem_of_lookup in Hk as [i Hi].
      destruct (Forall2_lookup_l _ _ _ _ _ Hcs Hi) as (t & _ & Ht).
      apply dimension_title_Ok. eauto.
    + rewrite <- Hkeys. apply mapM_result_inv in Hok. clear -Hok.
      induction Hok as [|e tab l' tabs' Hx _ IH]; [done|].
      rewrite !fmap_cons, IH. f_equal.
      destruct (coach_dimension_tab a e.1 e.2); simpl in Hx; [|done].
      by injection Hx as <-.
  - intros d -> Hnone. unfold coach_analysis, coach_dimension_scores, json_getitem.
    by rewrite Hnone.
  - intros Hsc. unfold coach_analysis, coach_dimension_scores. by rewrite Hsc.
Qed.

(** The PDF report prints one section per total it is given, in the same
    order, each with the band the coach's tab shows for that total, and it
    raises [KeyError] on a dimension that is not in the catalog. *)
Theorem pdf_sections_spec (dimension_scores : list (string * Z)) :
  ((∃ secs, pdf_sections dimension_scores = Ok secs) ↔
   ∀ k, k ∈ dimension_scores.*1 → k ∈ dimension_keys) ∧
  ∀ secs, pdf_sections dimension_scores = Ok secs →
    Forall2 (λ e sec, ∃ ttl r,
               sec = (ttl, e.2, coach_summary_level e.2, r) ∧
               dimension_title e.1 = Ok ttl ∧
               interpretation_range e.1 (coach_summary_level e.2) = Ok r)
            dimension_scores secs.
Proof.
  assert (Hinv : ∀ secs, pdf_sections dimension_scores = Ok secs →
    Forall2 (λ e sec, ∃ ttl r,
               sec = (ttl, e.2, coach_summary_level e.2, r) ∧
               dimension_title e.1 = Ok ttl ∧
               interpretation_range e.1 (coach_summary_level e.2) = Ok r)
            dimension_scores secs).
  { intros secs Hok. apply mapM_result_inv in Hok.
    eapply Forall2_impl; [exact Hok|]. intros e sec Hx. simpl in Hx.
    destruct (dimension_title e.1) as [ttl|]; simpl in Hx; [|done].
    rewrite pdf_level_eq in Hx.
    destruct (interpretation_range e.1 (coach_summary_level e.2)) as [r|];
      simpl in Hx; [|done].
    injection Hx as <-. by exists ttl, r. }
  split; [split|exact Hinv].
  - intros [secs Hok] k Hk. apply Hinv in Hok.
    apply list_elem_of_fmap in Hk as (e & -> & He).
    apply list_elem_of_lookup in He as [i Hi].
    destruct (Forall2_lookup_l _ _ _ _ _ Hok Hi) as (sec & _ & ttl & r & _ & Ht & _).
    apply dimension_title_Ok. eauto.
  - intros Hkeys.
    destruct (mapM_result_Ok
                (λ e : string * Z, t ← dimension_title e.1;
                   r ← interpretation_range e.1 (pdf_level e.2);
                   Ok (t, e.2, pdf_level e.2, r)) dimension_scores)
      as (secs & Hsecs & _); [|by exists secs].
    intros e He.
    assert (e.1 ∈ dimension_keys) as Hin.
    { apply Hkeys. apply list_elem_of_fmap. eauto. }
    destruct (proj2 (dimension_title_Ok e.1) Hin) as [ttl Ht].
    destruct (interpretation_range_in e.1 (pdf_level e.2) Hin) as (r & Hr & _).
    rewrite Ht. simpl. rewrite Hr. simpl. eauto.
Qed.

(** ** From the questionnaire to the coach's analysis *)

Lemma sample_session_complete : complete_scores (scores sample_session).
Proof.
  unfold sample_session.
  apply (show_wizard_page_ok (text := option json)).
  by split_and!.
Qed.

Lemma coach_analysis_of_complete_record_witness :
  json_getitem (assessment_data sample_session sample_time) "scores"
    = Ok (scores_to_json (scores sample_session)) ∧
  complete_scores (scores sample_session) ∧
  ∃ tabs, coach_analysis (assessment_data sample_session sample_time) = Ok tabs.
Proof.
  assert (H1 : json_getitem (assessment_data sample_session sample_time) "scores"
               = Ok (scores_to_json (scores sample_session))) by reflexivity.
  split; [exact H1|]. split; [exact sample_session_complete|].
  destruct (coach_analysis_of_complete_record _ _ H1 sample_session_complete)
    as (tabs & Htabs & _).
  by exists tabs.
Defined.

Section end_to_end.
Context {text : Type} `{JsonCodecLaws text} `{!FileSystem text}.


End end_to_end.

